(** * The Kobo Toolbox -> PostgreSQL survey pipeline (src/pipeline.py)

    A shallow embedding of the extract / normalise / load script and the
    properties its specification states about it.

    The script is a straight-line program over three libraries (requests,
    pandas, psycopg2).  What the script itself writes (the label chain, the
    column mapping, the order of the calls, the insert projection, the single
    commit) is embedded as it stands.  What the libraries compute is embedded
    as far as their documented behaviour fixes it; the parts that depend on
    their internals (the date parser and what it makes of [None] and of a
    column it gives up on, the dtype inference of a parsed column, the
    renaming of blank or repeated header names, what the tokenizer ends with
    once it has stepped back into text it had read, whether the server
    accepts a statement) are left as parameters.

    Text is a [string] whose characters are code points below 256. *)

From Stdlib Require Import Ascii String List ZArith Lia Bool.
From stdpp Require Import base gmap strings list.
Import ListNotations.
Local Open Scope string_scope.
Local Open Scope list_scope.

(** ** Characters and strings, as Python's [str] methods see them *)

Module Label.

(** [str.isspace] on one code point below 256: TAB, LF, VT, FF, CR, the four
    information separators 0x1C-0x1F, SPACE, NEL (0x85) and NBSP (0xA0). *)
Definition is_space (c : ascii) : bool :=
  let n := nat_of_ascii c in
  (Nat.leb 9 n && Nat.leb n 13) || (Nat.leb 28 n && Nat.leb n 32)
  || Nat.eqb n 133 || Nat.eqb n 160.

(** [str.lower] on one code point below 256: A-Z and the Latin-1 capitals
    0xC0-0xDE (without the multiplication sign 0xD7) move up by 32. *)
Definition lower_char (c : ascii) : ascii :=
  let n := nat_of_ascii c in
  if (Nat.leb 65 n && Nat.leb n 90)
     || (Nat.leb 192 n && Nat.leb n 222 && negb (Nat.eqb n 215))
  then ascii_of_nat (n + 32) else c.

Fixpoint lstrip (s : string) : string :=
  match s with
  | EmptyString => EmptyString
  | String c s' => if is_space c then lstrip s' else s
  end.

Fixpoint rstrip (s : string) : string :=
  match s with
  | EmptyString => EmptyString
  | String c s' =>
      match rstrip s' with
      | EmptyString => if is_space c then EmptyString else String c EmptyString
      | r => String c r
      end
  end.

(** [s.strip()] *)
Definition strip (s : string) : string := rstrip (lstrip s).

(** [s.lower()] *)
Fixpoint lower (s : string) : string :=
  match s with
  | EmptyString => EmptyString
  | String c s' => String (lower_char c) (lower s')
  end.

(** [s.replace(pat, repl)] for a pattern of one character, the only kind the
    script uses. *)
Fixpoint replace (pat : ascii) (repl : string) (s : string) : string :=
  match s with
  | EmptyString => EmptyString
  | String c s' =>
      if Ascii.eqb c pat then repl ++ replace pat repl s'
      else String c (replace pat repl s')
  end.

(** The double quote character, code point 34. *)
Definition dquote : ascii := "034"%char.

(** The chain of pipeline.py lines 59-70, applied to one column label. *)
Definition canonicalize (x : string) : string :=
  let s := strip x in
  let s := lower s in
  let s := replace dquote EmptyString s in
  let s := replace " " "_" s in
  let s := replace "&" "and" s in
  let s := replace "-" "_" s in
  let s := replace "?" EmptyString s in
  let s := replace "." EmptyString s in
  let s := replace "!" EmptyString s in
  s.

(** Every character of [s] satisfies [p]. *)
Fixpoint all_chars (p : ascii -> bool) (s : string) : bool :=
  match s with
  | EmptyString => true
  | String c s' => p c && all_chars p s'
  end.

(** A character [lower] leaves as it is. *)
Definition is_lowered (c : ascii) : bool := Ascii.eqb (lower_char c) c.

(** The characters a canonical label is made of: already lower case, and
    none of the seven characters the chain replaces or removes. *)
Definition canonical_char (c : ascii) : bool :=
  is_lowered c
  && negb (existsb (Ascii.eqb c)
             [dquote; " "; "&"; "-"; "?"; "."; "!"]%char).

(** The same, short of the patterns the chain has not yet reached. *)
Definition stage (todo : list ascii) (c : ascii) : bool :=
  canonical_char c || (is_lowered c && existsb (Ascii.eqb c) todo).

End Label.

Import Label.

(** ** The parsed table and the values its cells hold *)

(** A point in time as pandas holds it: the instant in ns and, for a
    timestamp that has a time zone, its offset from UTC. *)
Record timestamp : Type := {
  instant : Z;
  utcoffset : option Z
}.

(** A timestamp without time zone. *)
Definition naive (ns : Z) : timestamp :=
  {| instant := ns; utcoffset := None |}.
Coercion naive : Z >-> timestamp.

(** A Python object as it sits in a cell of the DataFrame or is handed to the
    database driver.  [VNaN] is the float nan pandas puts in a missing cell,
    [VNaT] the null marker of a datetime column, [VFloat] carries the bits of
    a (non-nan) float. *)
Inductive value : Type :=
  | VNone
  | VNaN
  | VNaT
  | VStr (s : string)
  | VInt (z : Z)
  | VFloat (bits : Z)
  | VBool (b : bool)
  | VTimestamp (ns : timestamp).
Arguments VTimestamp ns%_Z.

(** What [row.get(label)] gives: the cell, or the sub-series of all the cells
    under a label that occurs more than once. *)
Inductive pyobject : Type :=
  | Scalar (v : value)
  | SubSeries (vs : list value).

(** A DataFrame, column-major as pandas stores it: the length of its index
    and the labelled columns in order (labels may repeat). *)
Record DataFrame : Type := {
  nrows : nat;
  series : list (string * list value)
}.

(** [df.columns] *)
Definition columns (df : DataFrame) : list string := map fst (series df).

(** What the script can die of. *)
Inductive exn : Type :=
  | FetchFailed          (* Exception raised at line 44 *)
  | ParserError          (* pandas: error tokenizing data *)
  | EmptyDataError       (* pandas: no columns to parse *)
  | ValueError           (* pandas: to_datetime cannot assemble or convert *)
  | TypeError            (* pandas: to_datetime on a column of bools *)
  | OperationalError     (* psycopg2: no connection *)
  | ProgrammingError     (* psycopg2: a parameter cannot be adapted *)
  | DatabaseError.       (* the server rejects a statement *)

Inductive result (A : Type) : Type :=
  | Ok (a : A)
  | Raise (e : exn).
Arguments Ok {A} a.
Arguments Raise {A} e.

Definition is_ok {A} (r : result A) : bool :=
  match r with Ok _ => true | Raise _ => false end.

(** What pandas decides from the whole of a column or header, left open:
    - [infer_value col tok]: the object a non-empty token [tok] becomes under
      the dtype inferred for its column [col] (a number, a bool, nan for the
      other NA spellings, or the text itself);
    - [mangle_name hdr j]: the name given to header entry [j] when the header
      has blank or repeated entries;
    - [parse_datetime col v]: the timestamp [pd.to_datetime] reads from the
      non-null element [v] of column [col], if it reads one;
    - [datetime_error col]: the error [pd.to_datetime] gives up on the
      column as a whole with, if it does in spite of [errors="coerce"]
      (pandas 3 does on mixed UTC offsets, with a ValueError);
    - [keeps_none]: whether [pd.to_datetime(None)] is [None] (pandas 2) or
      the null marker [NaT] (pandas 3);
    - [reread text]: what the tokenizer ends with on a text in which it steps
      back over the start of a line (see [Csv.whitespace_line]): where it
      resumes depends on how the lines were handed to it, and from there it
      may read the text otherwise or never get out again, which ends in a
      ParserError. *)
Record Library : Type := {
  infer_value : list string -> string -> value;
  mangle_name : list string -> nat -> string;
  parse_datetime : list value -> value -> option timestamp;
  datetime_error : list value -> option exn;
  keeps_none : bool;
  reread : string -> result (list (list string))
}.
Existing Class Library.

(** ** [pd.read_csv(io.StringIO(text), sep=";", on_bad_lines="skip")] *)

Module Csv.

(** The states of the tokenizer that the default dialect can reach, and
    [REWOUND] for a tokenizer that has stepped back over the start of a
    line (see [whitespace_line]). *)
Inductive state : Type :=
  | START_RECORD
  | START_FIELD
  | IN_FIELD
  | IN_QUOTED_FIELD
  | QUOTE_IN_QUOTED_FIELD
  | EAT_CRNL
  | EAT_CRNL_NOP
  | WHITESPACE_LINE
  | REWOUND.

Record tokenizer : Type := {
  st : state;
  word : string;                 (* the field being read *)
  fields : list string;          (* the fields of the line being read *)
  lines : list (list string);    (* the lines read *)
  pos : N;                       (* the characters read *)
  bol : bool   (* the line being read starts the buffer or follows an LF *)
}.

Definition LF : ascii := "010"%char.
Definition CR : ascii := "013"%char.
Definition TAB : ascii := "009"%char.
Definition delimiter : ascii := ";"%char.
Definition quotechar : ascii := dquote.

(** The text is read into the buffer of the tokenizer this many characters
    at a time. *)
Definition chunksize : N := 262144.

Definition is_blank (c : ascii) : bool := Ascii.eqb c " " || Ascii.eqb c TAB.

Definition goto (s : state) (t : tokenizer) : tokenizer :=
  {| st := s; word := word t; fields := fields t; lines := lines t;
     pos := pos t; bol := bol t |}.

Definition at_bol (b : bool) (t : tokenizer) : tokenizer :=
  {| st := st t; word := word t; fields := fields t; lines := lines t;
     pos := pos t; bol := b |}.

Definition push_char (c : ascii) (t : tokenizer) : tokenizer :=
  {| st := st t; word := word t ++ String c EmptyString;
     fields := fields t; lines := lines t; pos := pos t; bol := bol t |}.

Definition drop_word (t : tokenizer) : tokenizer :=
  {| st := st t; word := EmptyString; fields := fields t; lines := lines t;
     pos := pos t; bol := bol t |}.

Definition end_field (t : tokenizer) : tokenizer :=
  {| st := st t; word := EmptyString;
     fields := fields t ++ [word t]; lines := lines t;
     pos := pos t; bol := bol t |}.

Definition end_line (t : tokenizer) : tokenizer :=
  {| st := START_RECORD; word := word t;
     fields := []; lines := lines t ++ [fields t];
     pos := pos t; bol := bol t |}.

(** The next character is the first of a buffer. *)
Definition at_buffer_start (t : tokenizer) : bool :=
  N.eqb (N.modulo (pos t) chunksize) 0.

Definition in_field (c : ascii) (t : tokenizer) : tokenizer :=
  if Ascii.eqb c LF then at_bol true (end_line (end_field t))
  else if Ascii.eqb c CR then goto EAT_CRNL (end_field t)
  else if Ascii.eqb c delimiter then goto START_FIELD (end_field t)
  else goto IN_FIELD (push_char c t).

Definition start_field (c : ascii) (t : tokenizer) : tokenizer :=
  if Ascii.eqb c LF then at_bol true (end_line (end_field t))
  else if Ascii.eqb c CR then goto EAT_CRNL (end_field t)
  else if Ascii.eqb c quotechar then goto IN_QUOTED_FIELD t
  else if Ascii.eqb c delimiter then goto START_FIELD (end_field t)
  else goto IN_FIELD (push_char c t).

(** Blank lines are skipped ([skip_blank_lines=True]). *)
Definition start_record (c : ascii) (t : tokenizer) : tokenizer :=
  if Ascii.eqb c LF then at_bol true (goto START_RECORD t)
  else if Ascii.eqb c CR then goto EAT_CRNL_NOP t
  else if is_blank c then goto WHITESPACE_LINE (push_char c t)
  else start_field c t.

(** A line of blanks only is skipped too.  At the first other character the
    tokenizer steps back to the last LF, or else to the start of its buffer,
    and reads on from there as from the start of a field.  When that is
    where the line begins, the blanks of the line (those in the buffer) open
    an unquoted field.  When it is before (the line follows a CR without
    LF), the tokenizer is back in text it has read already. *)
Definition whitespace_line (c : ascii) (t : tokenizer) : tokenizer :=
  if Ascii.eqb c LF then at_bol true (goto START_RECORD (drop_word t))
  else if Ascii.eqb c CR then goto EAT_CRNL_NOP (drop_word t)
  else if is_blank c then push_char c t
  else if bol t then
    match word t with
    | EmptyString => start_field c t
    | String _ _ => in_field c t
    end
  else goto REWOUND t.

Definition in_quoted_field (c : ascii) (t : tokenizer) : tokenizer :=
  if Ascii.eqb c quotechar then goto QUOTE_IN_QUOTED_FIELD t
  else push_char c t.

Definition quote_in_quoted_field (c : ascii) (t : tokenizer) : tokenizer :=
  if Ascii.eqb c quotechar then goto IN_QUOTED_FIELD (push_char c t)
  else if Ascii.eqb c delimiter then goto START_FIELD (end_field t)
  else if Ascii.eqb c LF then at_bol true (end_line (end_field t))
  else if Ascii.eqb c CR then goto EAT_CRNL (end_field t)
  else goto IN_FIELD (push_char c t).

(** After a CR: an LF completes the line end; any other character begins the
    next line, which then follows a CR without LF. *)
Definition eat_crnl (c : ascii) (t : tokenizer) : tokenizer :=
  if Ascii.eqb c LF then at_bol true (end_line t)
  else if Ascii.eqb c delimiter then goto START_FIELD (end_field (end_line t))
  else start_record c (at_bol (at_buffer_start t) (end_line t)).

(** After the CR of a skipped line: a delimiter is dropped with it. *)
Definition eat_crnl_nop (c : ascii) (t : tokenizer) : tokenizer :=
  if Ascii.eqb c LF then at_bol true (goto START_RECORD t)
  else if Ascii.eqb c delimiter then at_bol false (goto START_RECORD t)
  else start_record c (at_bol (at_buffer_start t) (goto START_RECORD t)).

(** A new buffer: the tokenizer cannot step back into the one before, so the
    blanks read so far of a line of blanks are lost to it. *)
Definition refill (t : tokenizer) : tokenizer :=
  match st t with
  | START_RECORD => at_bol true t
  | WHITESPACE_LINE => at_bol true (drop_word t)
  | _ => t
  end.

Definition advance (t : tokenizer) : tokenizer :=
  {| st := st t; word := word t; fields := fields t; lines := lines t;
     pos := N.succ (pos t); bol := bol t |}.

(** One character of input. *)
Definition step (t : tokenizer) (c : ascii) : tokenizer :=
  let t := if at_buffer_start t then refill t else t in
  advance
    match st t with
    | START_RECORD => start_record c t
    | START_FIELD => start_field c t
    | IN_FIELD => in_field c t
    | IN_QUOTED_FIELD => in_quoted_field c t
    | QUOTE_IN_QUOTED_FIELD => quote_in_quoted_field c t
    | EAT_CRNL => eat_crnl c t
    | EAT_CRNL_NOP => eat_crnl_nop c t
    | WHITESPACE_LINE => whitespace_line c t
    | REWOUND => t
    end.

Fixpoint feed (t : tokenizer) (text : string) : tokenizer :=
  match text with
  | EmptyString => t
  | String c text' => feed (step t c) text'
  end.

Definition init : tokenizer :=
  {| st := START_RECORD; word := EmptyString; fields := []; lines := [];
     pos := 0; bol := true |}.

Section Reader.

Context {L : Library}.

(** The end of the input: an open field and line are closed, an open quote
    is an error. *)
Definition handle_eof (text : string) (t : tokenizer)
  : result (list (list string)) :=
  match st t with
  | START_RECORD | WHITESPACE_LINE | EAT_CRNL_NOP => Ok (lines t)
  | IN_QUOTED_FIELD => Raise ParserError
  | IN_FIELD | START_FIELD | QUOTE_IN_QUOTED_FIELD =>
      Ok (lines (end_line (end_field t)))
  | EAT_CRNL => Ok (lines (end_line t))
  | REWOUND => reread L text
  end.

(** The lines of [text], each the list of its fields. *)
Definition tokenize (text : string) : result (list (list string)) :=
  handle_eof text (feed init text).

End Reader.

(** Missing trailing fields are filled with empty tokens. *)
Definition pad (w : nat) (r : list string) : list string :=
  r ++ repeat EmptyString (w - length r).

(** The parser's decision at the end of each line, [stored] being the lines
    kept so far.  The header (line 0) and the first data line are kept as
    they are read; a later line with more fields than the line kept before
    it is a bad line and is skipped; a data line with fewer is padded. *)
Definition store_line (stored : list (list string)) (r : list string)
  : list (list string) :=
  let ex_fields := length (List.last stored []) in
  if negb (Nat.leb (length stored) 1) && Nat.ltb ex_fields (length r)
  then stored
  else if Nat.leb 1 (length stored) then stored ++ [pad ex_fields r]
  else stored ++ [r].

Definition store_lines (recs : list (list string)) : list (list string) :=
  fold_left store_line recs [].

(** The header and the data lines the parser keeps, or the error it ends
    with: an input without any line has no columns to parse. *)
Definition parse {L : Library} (text : string)
  : result (list string * list (list string)) :=
  match tokenize text with
  | Raise e => Raise e
  | Ok recs =>
      match store_lines recs with
      | [] => Raise EmptyDataError
      | hdr :: rows => Ok (hdr, rows)
      end
  end.

(** Column [p] of the kept data lines. *)
Definition column (p : nat) (rows : list (list string)) : list string :=
  map (fun r => nth p r EmptyString) rows.



End Csv.

(** ** pandas operations the script uses *)

Section Pandas.

Variable L : Library.

(** [enumerate(l)] *)
Definition enumerate {A} (l : list A) : list (nat * A) :=
  combine (seq 0 (length l)) l.

(** The column names read from the header line: the entries themselves,
    unless some are blank or repeated. *)
Definition header_names (hdr : list string) : list string :=
  if bool_decide (NoDup hdr /\ EmptyString ∉ hdr) then hdr
  else map (fun jn => mangle_name L hdr (fst jn)) (enumerate hdr).

(** The object a token becomes: the empty token is a missing value. *)
Definition convert (col : list string) (tok : string) : value :=
  if String.eqb tok EmptyString then VNaN else infer_value L col tok.

(** When the data lines are wider than the header, the surplus leading
    fields are the index of the table, not columns of it. *)
Definition leading_cols (hdr : list string) (rows : list (list string))
  : nat :=
  match rows with
  | [] => 0
  | r :: _ => length r - length hdr
  end.

(** The table built from the kept lines: the names label the fields after
    the index, and each column is converted as a whole. *)
Definition build_frame (hdr : list string) (rows : list (list string))
  : DataFrame :=
  {| nrows := length rows;
     series :=
       map (fun jn =>
              let col := Csv.column (leading_cols hdr rows + fst jn) rows in
              (snd jn, map (convert col) col))
           (enumerate (header_names hdr)) |}.

Definition read_csv (text : string) : result DataFrame :=
  match Csv.parse text with
  | Raise e => Raise e
  | Ok (hdr, rows) => Ok (build_frame hdr rows)
  end.

(** [df.columns = labels], for labels computed from [df.columns]. *)
Definition set_columns (labels : list string) (df : DataFrame) : DataFrame :=
  {| nrows := nrows df;
     series := combine labels (map snd (series df)) |}.

(** [mapping.get(label, label)] *)
Definition lookup_label (mapping : gmap string string) (label : string)
  : string :=
  default label (mapping !! label).

(** [df.rename(columns=mapping)]: a label that is a key is replaced by its
    entry, any other label stays. *)
Definition rename (mapping : gmap string string) (df : DataFrame)
  : DataFrame :=
  {| nrows := nrows df;
     series := map (fun lc => (lookup_label mapping (fst lc), snd lc))
                   (series df) |}.

(** [df.get(label)]: nothing, one column, or the sub-frame of all the
    columns that carry the label. *)
Inductive selection : Type :=
  | NoColumn
  | OneColumn (c : list value)
  | SubFrame (cs : list (list value)).

Definition select (label : string) (s : list (string * list value))
  : list (list value) :=
  map snd (List.filter (fun lc => String.eqb (fst lc) label) s).

Definition df_get (label : string) (df : DataFrame) : selection :=
  match select label (series df) with
  | [] => NoColumn
  | [c] => OneColumn c
  | cs => SubFrame cs
  end.

(** One element under [errors="coerce"]: a null or an empty string is the
    null marker, and so is anything the parser does not read. *)
Definition coerce (col : list value) (v : value) : value :=
  match v with
  | VNone | VNaN | VNaT => VNaT
  | VStr EmptyString => VNaT
  | _ => match parse_datetime L col v with
         | Some ns => VTimestamp ns
         | None => VNaT
         end
  end.

(** What [pd.to_datetime] returns: a scalar for a scalar, a column for a
    column. *)
Inductive assigned : Type :=
  | Broadcast (v : value)
  | Values (c : list value).

(** [pd.to_datetime(None)] *)
Definition null_datetime : value :=
  if keeps_none L then VNone else VNaT.

(** [pd.to_datetime(arg, errors="coerce")]: [None] gives a null, a column
    is converted element by element unless the conversion gives up on it, a
    sub-frame with a repeated label cannot be assembled. *)
Definition to_datetime (arg : selection) : result assigned :=
  match arg with
  | NoColumn => Ok (Broadcast null_datetime)
  | OneColumn c =>
      match datetime_error L c with
      | Some e => Raise e
      | None => Ok (Values (map (coerce c) c))
      end
  | SubFrame _ => Raise ValueError
  end.

(** [df[label] = new]: the columns under [label] take the new values; when
    there is none, a column is added at the end.  A scalar fills the
    column. *)
Definition setitem (label : string) (new : assigned)
    (df : DataFrame) : DataFrame :=
  let c := match new with
           | Values c => c
           | Broadcast v => repeat v (nrows df)
           end in
  {| nrows := nrows df;
     series :=
       if existsb (String.eqb label) (columns df)
       then map (fun lc => if String.eqb (fst lc) label then (fst lc, c)
                           else lc) (series df)
       else series df ++ [(label, c)] |}.

(** Lines 98-99: [df[label] = pd.to_datetime(df.get(label), errors="coerce")] *)
Definition assign_datetime (label : string) (df : DataFrame)
  : result DataFrame :=
  match to_datetime (df_get label df) with
  | Raise e => Raise e
  | Ok new => Ok (setitem label new df)
  end.

(** The cells of row [i]. *)
Definition row_cells (df : DataFrame) (i : nat) : list value :=
  map (fun lc => nth i (snd lc) VNone) (series df).

Definition is_null (v : value) : bool :=
  match v with
  | VNone | VNaN | VNaT => true
  | _ => false
  end.

Definition is_timestamp (v : value) : bool :=
  match v with
  | VTimestamp _ => true
  | _ => false
  end.

Definition is_nat (v : value) : bool :=
  match v with
  | VNaT => true
  | _ => false
  end.

(** The time zones of the timestamps among the cells. *)
Definition zones (cells : list value) : list (option Z) :=
  flat_map (fun v => match v with
                     | VTimestamp t => [utcoffset t]
                     | _ => []
                     end) cells.

Definition same_zone (z z' : option Z) : bool :=
  match z, z' with
  | None, None => true
  | Some o, Some o' => Z.eqb o o'
  | _, _ => false
  end.

(** The Series made of a row is a datetime Series when the row holds nothing
    but nulls and timestamps, the timestamps agree on their time zone, and
    one cell at least is a timestamp or the null marker [NaT]. *)
Definition datetimelike (cells : list value) : bool :=
  forallb (fun v => is_null v || is_timestamp v) cells
  && match zones cells with
     | [] => existsb is_nat cells
     | z :: zs => forallb (same_zone z) zs
     end.

(** A cell as it comes out of the Series made of its row: in a datetime
    Series every null is [NaT]. *)
Definition as_row (cells : list value) (v : value) : value :=
  if datetimelike cells && is_null v then VNaT else v.

(** Row [i] as [df.iterrows()] yields it, for a table whose cells are held
    as objects (as they are in a table that has timestamp columns beside
    others): the labels with the row's cells, in a Series of its own. *)
Definition row_at (df : DataFrame) (i : nat) : list (string * value) :=
  map (fun lc => (fst lc, as_row (row_cells df i) (nth i (snd lc) VNone)))
      (series df).

Definition iterrows (df : DataFrame) : list (list (string * value)) :=
  map (row_at df) (seq 0 (nrows df)).

(** [row.get(label)]: [None] when the label is missing. *)
Definition row_get (label : string) (row : list (string * value))
  : pyobject :=
  match map snd (List.filter (fun lv => String.eqb (fst lv) label) row) with
  | [] => Scalar VNone
  | [v] => Scalar v
  | vs => SubSeries vs
  end.

End Pandas.

(** ** The constants of the script *)

Definition SCHEMA_NAME : string := "women_survey".
Definition TABLE_NAME : string := "women_participation_energy".

Definition COLUMN_MAPPING : gmap string string :=
  list_to_map [
    ("start", "start_time");
    ("end", "end_time");
    ("nationality", "nationality");
    ("region", "region");
    ("school_name", "school_name");
    ("level_of_study", "level_of_study");
    ("gender", "gender");
    ("age", "age");
    ("gps_coordinates", "gps_coordinates");
    ("name_of_organisation", "name_of_organization");
    ("your_current_position_in_the_organization", "current_position");
    ("years_of_work_experience", "years_of_experience");
    ("which_specific_energy_domain_does_your_organization_concentrate_on",
       "energy_domain");
    ("i_give_consent_for_my_information_to_be_collected_and_used_for_research_purposes",
       "consent")
  ].

(** The column list of the INSERT statement, in its order. *)
Definition INSERT_COLUMNS : list string :=
  [ "start_time"; "end_time"; "nationality"; "region"; "school_name";
    "level_of_study"; "gender"; "age"; "gps_coordinates";
    "name_of_organization"; "current_position";
    "years_of_experience"; "energy_domain"; "consent" ].

(** The two columns lines 98-99 convert. *)
Definition is_timestamp_column (label : string) : bool :=
  String.eqb label "start_time" || String.eqb label "end_time".

(** The name a raw header label has in the working table. *)
Definition working_label (raw : string) : string :=
  lookup_label COLUMN_MAPPING (canonicalize raw).

(** The parameter tuple of one INSERT (lines 177-192). *)
Definition insert_params (row : list (string * value)) : list pyobject :=
  map (fun d => row_get d row) INSERT_COLUMNS.

(** Lines 59-99: the table after the labels are cleaned and renamed and the
    two timestamp columns converted. *)
Definition transform (L : Library) (df : DataFrame) : result DataFrame :=
  let df := set_columns (map canonicalize (columns df)) df in
  let df := rename COLUMN_MAPPING df in
  match assign_datetime L "start_time" df with
  | Raise e => Raise e
  | Ok df => assign_datetime L "end_time" df
  end.

(** The records a table is loaded as, in the order of the insert loop. *)
Definition records (df : DataFrame) : list (list pyobject) :=
  map insert_params (iterrows df).

(** *** The working table, column by column

    These say where each column of the table that [transform] returns comes
    from; [transform_series] below proves that they describe it. *)

(** The columns of the parsed table that carry [label] in the working
    table. *)
Definition sources (label : string) (df : DataFrame)
  : list (string * list value) :=
  List.filter (fun lc => String.eqb (working_label (fst lc)) label)
              (series df).

(** The values of a working column, from those of the parsed column. *)
Definition working_values (L : Library) (label : string) (c : list value)
  : list value :=
  if is_timestamp_column label then map (coerce L c) c else c.

Definition working_column (L : Library) (lc : string * list value)
  : string * list value :=
  (working_label (fst lc), working_values L (working_label (fst lc)) (snd lc)).

(** What [df[label] = pd.to_datetime(df.get(label), ...)] makes of one
    column when [label] is not repeated. *)
Definition converted (L : Library) (label : string)
    (lc : string * list value) : string * list value :=
  if String.eqb (fst lc) label then (fst lc, map (coerce L (snd lc)) (snd lc))
  else lc.

(** The column of nulls that stands for a timestamp column without a
    source. *)
Definition missing_column (L : Library) (label : string) (df : DataFrame)
  : list (string * list value) :=
  match sources label df with
  | [] => [(label, repeat (null_datetime L) (nrows df))]
  | _ :: _ => []
  end.

(** The columns [label] selects in the working table. *)
Definition working_selection (L : Library) (label : string) (df : DataFrame)
  : list (list value) :=
  map (working_values L label) (map snd (sources label df))
  ++ (if is_timestamp_column label then map snd (missing_column L label df)
      else []).

(** What [pd.to_datetime] takes without an error: nothing, or one column
    that the conversion does not give up on. *)
Definition accepted (L : Library) (cs : list (list value)) : bool :=
  match cs with
  | [] => true
  | [c] => match datetime_error L c with
           | Some _ => false
           | None => true
           end
  | _ :: _ :: _ => false
  end.

(** Lines 98-99 get through for [label]. *)
Definition convertible (L : Library) (label : string) (df : DataFrame)
  : bool :=
  accepted L (map snd (sources label df)).


(** ** The destination database, as one session sees it *)

Inductive statement : Type :=
  | CreateSchemaIfNotExists (schema : string)
  | DropTableIfExists (schema table : string)
  | CreateTable (schema table : string)
  | InsertInto (schema table : string) (params : list pyobject).

(** A table created by line 131: the serial counter of [id] and the rows,
    each its [id] and the fourteen values of the INSERT. *)
Record table : Type := {
  next_id : Z;
  table_rows : list (Z * list value)
}.

Record database : Type := {
  schemas : gset string;
  tables : gmap (string * string) table
}.

(** The driver adapts scalars only. *)
Fixpoint adapt (params : list pyobject) : option (list value) :=
  match params with
  | [] => Some []
  | Scalar v :: ps =>
      match adapt ps with
      | Some vs => Some (v :: vs)
      | None => None
      end
  | SubSeries _ :: _ => None
  end.

(** What a statement the server accepts does to the database. *)
Definition exec (d : database) (q : statement) : result database :=
  match q with
  | CreateSchemaIfNotExists s =>
      Ok {| schemas := {[ s ]} ∪ schemas d; tables := tables d |}
  | DropTableIfExists s t =>
      Ok {| schemas := schemas d; tables := delete (s, t) (tables d) |}
  | CreateTable s t =>
      if bool_decide (s ∈ schemas d) then
        match tables d !! (s, t) with
        | Some _ => Raise DatabaseError
        | None =>
            Ok {| schemas := schemas d;
                  tables := <[ (s, t) := {| next_id := 1; table_rows := [] |} ]>
                              (tables d) |}
        end
      else Raise DatabaseError
  | InsertInto s t params =>
      match tables d !! (s, t), adapt params with
      | Some tb, Some vs =>
          Ok {| schemas := schemas d;
                tables :=
                  <[ (s, t) := {| next_id := (next_id tb + 1)%Z;
                                  table_rows :=
                                    table_rows tb ++ [(next_id tb, vs)] |} ]>
                    (tables d) |}
      | _, _ => Raise DatabaseError
      end
  end.

(** ** The run: effects, in the order the script performs them *)

Inductive event : Type :=
  | HttpGet
  | ReadCsv
  | Connect
  | Execute (q : statement)
  | Commit
  | CursorClose
  | ConnClose.

Record Response : Type := {
  status_code : Z;
  text : string
}.

(** What a run meets outside the process: the answer of the remote service,
    whether the database server can be reached, and which statements it
    accepts. *)
Record environment : Type := {
  response : Response;
  can_connect : bool;
  server_accepts : statement -> bool
}.

(** The state a run threads: what is committed in the database, the
    uncommitted view of the open connection (if any), and the effects so
    far. *)
Record world : Type := {
  committed : database;
  session : option database;
  trace : list event
}.

Definition M (A : Type) : Type := world -> result A * world.

Definition ret {A} (a : A) : M A := fun w => (Ok a, w).

Definition bind {A B} (m : M A) (f : A -> M B) : M B := fun w =>
  match m w with
  | (Ok a, w') => f a w'
  | (Raise e, w') => (Raise e, w')
  end.

Declare Scope run_scope.
Delimit Scope run_scope with run.
Bind Scope run_scope with M.
Notation "'let*' x ':=' m 'in' k" := (bind m (fun x => k))
  (at level 10, x name, m at level 100, k at level 200) : run_scope.
Notation "m >> k" := (bind m (fun _ => k))
  (at level 90, right associativity) : run_scope.
Local Open Scope run_scope.

Definition raise {A} (e : exn) : M A := fun w => (Raise e, w).

Definition lift {A} (r : result A) : M A := fun w => (r, w).

Definition log (ev : event) : M unit := fun w =>
  (Ok tt, {| committed := committed w; session := session w;
             trace := trace w ++ [ev] |}).

Definition set_session (s : option database) : M unit := fun w =>
  (Ok tt, {| committed := committed w; session := s; trace := trace w |}).

(** [requests.get(KOBO_CSV_URL, auth=...)] *)
Definition requests_get (env : environment) : M Response :=
  log HttpGet >> ret (response env).

(** [psycopg2.connect(...)]: the connection works on the committed state. *)
Definition connect (env : environment) : M unit :=
  log Connect >>
  if can_connect env then fun w => set_session (Some (committed w)) w
  else raise OperationalError.

(** [cur.execute(q)] *)
Definition execute (env : environment) (q : statement) : M unit :=
  log (Execute q) >>
  fun w =>
    match session w with
    | None => raise OperationalError w
    | Some d =>
        (match q with
         | InsertInto _ _ params =>
             match adapt params with
             | Some _ => ret tt
             | None => raise ProgrammingError
             end
         | _ => ret tt
         end >>
         (if server_accepts env q then ret tt else raise DatabaseError) >>
         let* d' := lift (exec d q) in
         set_session (Some d')) w
    end.

(** [conn.commit()]: the view of the connection becomes the committed
    state. *)
Definition commit : M unit :=
  log Commit >>
  fun w =>
    (Ok tt, {| committed := default (committed w) (session w);
               session := session w; trace := trace w |}).

(** [conn.close()] *)
Definition close : M unit := log ConnClose >> set_session None.

Fixpoint for_each {A} (xs : list A) (body : A -> M unit) : M unit :=
  match xs with
  | [] => ret tt
  | x :: xs' => body x >> for_each xs' body
  end.

(** Lines 106-197: the Loader. *)
Definition load (env : environment) (df : DataFrame) : M unit :=
  connect env >>
  execute env (CreateSchemaIfNotExists SCHEMA_NAME) >>
  execute env (DropTableIfExists SCHEMA_NAME TABLE_NAME) >>
  execute env (CreateTable SCHEMA_NAME TABLE_NAME) >>
  for_each (iterrows df)
    (fun row => execute env
                  (InsertInto SCHEMA_NAME TABLE_NAME (insert_params row))) >>
  commit >>
  log CursorClose >>
  close.

(** The whole script. *)
Definition pipeline (L : Library) (env : environment) : M unit :=
  let* resp := requests_get env in
  if bool_decide (status_code resp ≠ 200%Z) then raise FetchFailed
  else
    log ReadCsv >>
    let* df := lift (read_csv L (text resp)) in
    let* df := lift (transform L df) in
    load env df.

(** One run of the process against a database: how it ends, what is
    committed when it has ended, and what it did. *)
Definition run (L : Library) (env : environment) (db : database)
  : result unit * world :=
  pipeline L env {| committed := db; session := None; trace := [] |}.

Definition succeeded (o : result unit * world) : bool := is_ok (fst o).
Definition database_after (o : result unit * world) : database :=
  committed (snd o).
Definition events (o : result unit * world) : list event := trace (snd o).

(** The destination table in a database. *)
Definition destination (d : database) : option table :=
  tables d !! (SCHEMA_NAME, TABLE_NAME).

(** *** What a run leaves behind *)

(** The rows a fresh table holds after a run of inserts: the serial [id]
    counts up from [start]. *)
Fixpoint numbered (start : Z) (vss : list (list value))
  : list (Z * list value) :=
  match vss with
  | [] => []
  | vs :: vss' => (start, vs) :: numbered (start + 1) vss'
  end.

(** The rows of a table, as the parameter tuples they were inserted from. *)
Definition stored_values (tb : table) : list (list pyobject) :=
  map (fun r => map Scalar (snd r)) (table_rows tb).

(** The statement of one turn of the insert loop. *)
Definition insert_statement (params : list pyobject) : statement :=
  InsertInto SCHEMA_NAME TABLE_NAME params.

(** From [w] to [w'] nothing was committed. *)
Definition uncommitted (w w' : world) : Prop :=
  committed w' = committed w
  /\ exists evs, trace w' = trace w ++ evs /\ ~ In Commit evs.

(** [m] commits nothing. *)
Definition quiet {A} (m : M A) : Prop :=
  forall w, uncommitted w (snd (m w)).

(** [m] commits nothing unless it ends well. *)
Definition all_or_nothing {A} (m : M A) : Prop :=
  forall w, is_ok (fst (m w)) = false -> uncommitted w (snd (m w)).

(** *** Records up to the null marker *)



(** *** Shapes used to state further properties *)

(** A label whose only whitespace characters are spaces. *)
Definition plain_label (x : string) : bool :=
  all_chars (fun c => negb (is_space c) || Ascii.eqb c " ") x.

(** The characters of a string. *)
Fixpoint chars (s : string) : list ascii :=
  match s with
  | EmptyString => []
  | String c s' => c :: chars s'
  end.

(** Every column of the table has one cell for each row. *)
Definition well_formed (df : DataFrame) : Prop :=
  Forall (fun lc => length (snd lc) = nrows df) (series df).

(** The values the driver sends for a parameter tuple. *)
Definition values_of (params : list pyobject) : list value :=
  default [] (adapt params).

(** The database a run has committed when it loaded the rows [vss] into
    [db]. *)
Definition loaded_database (db : database) (vss : list (list value))
  : database :=
  {| schemas := {[ SCHEMA_NAME ]} ∪ schemas db;
     tables :=
       <[ (SCHEMA_NAME, TABLE_NAME) :=
            {| next_id := (1 + Z.of_nat (length vss))%Z;
               table_rows := numbered 1 vss |} ]>
         (delete (SCHEMA_NAME, TABLE_NAME) (tables db)) |}.

(** The statements before the insert loop. *)
Definition DDL : list statement :=
  [ CreateSchemaIfNotExists SCHEMA_NAME;
    DropTableIfExists SCHEMA_NAME TABLE_NAME;
    CreateTable SCHEMA_NAME TABLE_NAME ].

(** What a run that loads the working table [df] does, from the request to
    the closing of the connection. *)
Definition full_trace (df : DataFrame) : list event :=
  [HttpGet; ReadCsv; Connect]
  ++ map Execute DDL
  ++ map (fun r => Execute (insert_statement r)) (records df)
  ++ [Commit; CursorClose; ConnClose].

(** A record the driver adapts and the server takes. *)
Definition insertable (env : environment) (r : list pyobject) : Prop :=
  server_accepts env (insert_statement r) = true /\ adapt r <> None.

(** [m] performs the effects [evs], in order, and stops short only when it
    fails. *)
Definition emits {A} (m : M A) (evs : list event) : Prop :=
  forall w,
    (is_ok (fst (m w)) = true -> trace (snd (m w)) = trace w ++ evs)
    /\ exists k, trace (snd (m w)) = trace w ++ firstn k evs.

(** A line end or a blank. *)
Definition is_margin (c : ascii) : bool :=
  Ascii.eqb c Csv.LF || Ascii.eqb c Csv.CR || Csv.is_blank c.

(** The tokenizer has read no field yet. *)
Definition idle (t : Csv.tokenizer) : Prop :=
  Csv.lines t = [] /\ Csv.fields t = []
  /\ (Csv.st t = Csv.START_RECORD \/ Csv.st t = Csv.WHITESPACE_LINE
      \/ Csv.st t = Csv.EAT_CRNL_NOP).

(** ** Sample instances, for running the model on concrete inputs *)

Definition NL : string := String Csv.LF EmptyString.

(** A library that keeps every non-empty token as text, names blank or
    repeated header entries by their position, reads the two time stamps of
    the first end-to-end scenario and otherwise behaves as pandas 2 does. *)
Definition sample_library : Library := {|
  infer_value := fun _ tok => VStr tok;
  mangle_name := fun hdr j => nth j hdr EmptyString;
  parse_datetime := fun _ v =>
    match v with
    | VStr s =>
        if String.eqb s "2024-01-01T10:00"
        then Some (naive 1704103200000000000)
        else if String.eqb s "2024-01-01T10:30"
        then Some (naive 1704105000000000000)
        else None
    | _ => None
    end;
  datetime_error := fun _ => None;
  keeps_none := true;
  reread := fun _ => Raise ParserError
|}.

Definition empty_database : database := {| schemas := ∅; tables := ∅ |}.

Definition scenario1_text : string :=
  "Start;End;Gender" ++ NL ++ "2024-01-01T10:00;2024-01-01T10:30;Female" ++ NL.

Definition friendly (status : Z) (body : string) : environment := {|
  response := {| status_code := status; text := body |};
  can_connect := true;
  server_accepts := fun _ => true
|}.

(** The table read from [scenario1_text], and the working table made of
    it. *)
Definition scenario1_frame : DataFrame := {|
  nrows := 1;
  series := [ ("Start", [VStr "2024-01-01T10:00"]);
              ("End", [VStr "2024-01-01T10:30"]);
              ("Gender", [VStr "Female"]) ]
|}.

Definition scenario1_working : DataFrame := {|
  nrows := 1;
  series := [ ("start_time", [VTimestamp 1704103200000000000]);
              ("end_time", [VTimestamp 1704105000000000000]);
              ("gender", [VStr "Female"]) ]
|}.

(** The data of a second run: two answers, one without an end and one with
    a start that is no date. *)
Definition second_text : string :=
  "Start;End;Gender" ++ NL ++ "2024-01-01T10:30;;Male" ++ NL
  ++ "never;2024-01-01T10:00;Female" ++ NL.

(** The database a first run on [scenario1_text] leaves. *)
Definition after_first_run : database :=
  database_after
    (run sample_library (friendly 200 scenario1_text) empty_database).

(** A server that takes the DDL and refuses every INSERT. *)
Definition refusing (body : string) : environment := {|
  response := {| status_code := 200; text := body |};
  can_connect := true;
  server_accepts := fun q =>
    match q with
    | InsertInto _ _ _ => false
    | _ => true
    end
|}.

(** An input with a short line, a long line and a full line. *)
Definition ragged_text : string :=
  "a;b" ++ NL ++ "x" ++ NL ++ "p;q;r" ++ NL ++ "u;v" ++ NL.

Definition ragged_frame : DataFrame := {|
  nrows := 2;
  series := [ ("a", [VStr "x"; VStr "u"]); ("b", [VNaN; VStr "v"]) ]
|}.

Definition ragged_working : DataFrame := {|
  nrows := 2;
  series := [ ("a", [VStr "x"; VStr "u"]); ("b", [VNaN; VStr "v"]);
              ("start_time", [VNone; VNone]); ("end_time", [VNone; VNone]) ]
|}.







(** A server that cannot be reached. *)
Definition unreachable (body : string) : environment := {|
  response := {| status_code := 200; text := body |};
  can_connect := false;
  server_accepts := fun _ => true
|}.

(** [scenario1_working] with its first two columns exchanged. *)
Definition scenario1_swapped : DataFrame := {|
  nrows := 1;
  series := [ ("end_time", [VTimestamp 1704105000000000000]);
              ("start_time", [VTimestamp 1704103200000000000]);
              ("gender", [VStr "Female"]) ]
|}.

(** Exports whose headers collide after cleaning. *)
Definition repeated_start_text : string :=
  "Start;start" ++ NL ++ "x;y" ++ NL.

Definition repeated_start_frame : DataFrame := {|
  nrows := 1;
  series := [ ("Start", [VStr "x"]); ("start", [VStr "y"]) ]
|}.

Definition repeated_gender_text : string :=
  "Gender;gender" ++ NL ++ "F;M" ++ NL.

Definition repeated_gender_frame : DataFrame := {|
  nrows := 1;
  series := [ ("Gender", [VStr "F"]); ("gender", [VStr "M"]) ]
|}.

(** An export with a header and no answer, and one with nothing at all. *)
Definition header_only_text : string := "Start;End;Gender" ++ NL.

Definition blank_text : string := NL ++ "  " ++ NL.

(** * Properties *)

(** ** Label canonicalisation *)

Section Canonicalisation.

(** Decide a fact about one character by looking at all 256 of them. *)
Local Ltac each_char c :=
  destruct c as [[] [] [] [] [] [] [] []]; vm_compute; try reflexivity;
  try discriminate; intuition (try discriminate).

Lemma all_chars_app p a b :
  all_chars p (a ++ b) = all_chars p a && all_chars p b.
Proof.
  induction a as [|c a IH]; simpl; [reflexivity|].
  rewrite IH. apply andb_assoc.
Qed.

Lemma all_chars_impl (p q : ascii -> bool) s :
  (forall c, p c = true -> q c = true) ->
  all_chars p s = true -> all_chars q s = true.
Proof.
  intros Hpq. induction s as [|c s IH]; simpl; [reflexivity|].
  intros [Hc Hs]%andb_true_iff. rewrite (Hpq c Hc), (IH Hs). reflexivity.
Qed.

Lemma all_chars_lstrip p s :
  all_chars p s = true -> all_chars p (lstrip s) = true.
Proof.
  induction s as [|c s IH]; simpl; [reflexivity|].
  intros H. destruct (is_space c); [|exact H].
  apply andb_true_iff in H. apply IH, H.
Qed.

Lemma all_chars_rstrip p s :
  all_chars p s = true -> all_chars p (rstrip s) = true.
Proof.
  induction s as [|c s IH]; simpl; [reflexivity|].
  intros [Hc Hs]%andb_true_iff. specialize (IH Hs).
  destruct (rstrip s) as [|d r].
  - destruct (is_space c); simpl; [reflexivity|]. rewrite Hc. reflexivity.
  - change (p c && all_chars p (String d r) = true). rewrite Hc, IH.
    reflexivity.
Qed.

Lemma all_chars_strip p s :
  all_chars p s = true -> all_chars p (strip s) = true.
Proof. intros H. apply all_chars_rstrip, all_chars_lstrip, H. Qed.

(** A string without whitespace at either end is left alone by [strip]. *)
Lemma lstrip_id s :
  all_chars (fun c => negb (is_space c)) s = true -> lstrip s = s.
Proof.
  destruct s as [|c s]; simpl; [reflexivity|].
  intros [Hc _]%andb_true_iff. apply negb_true_iff in Hc. rewrite Hc.
  reflexivity.
Qed.

Lemma rstrip_id s :
  all_chars (fun c => negb (is_space c)) s = true -> rstrip s = s.
Proof.
  induction s as [|c s IH]; simpl; [reflexivity|].
  intros [Hc Hs]%andb_true_iff. apply negb_true_iff in Hc.
  rewrite (IH Hs). destruct s; [rewrite Hc|]; reflexivity.
Qed.

Lemma strip_id s :
  all_chars (fun c => negb (is_space c)) s = true -> strip s = s.
Proof.
  intros H. unfold strip. rewrite (lstrip_id s H). apply rstrip_id, H.
Qed.

Lemma lower_char_idem c : is_lowered (lower_char c) = true.
Proof. each_char c. Qed.

Lemma all_chars_lower s : all_chars is_lowered (lower s) = true.
Proof.
  induction s as [|c s IH]; simpl; [reflexivity|].
  rewrite lower_char_idem, IH. reflexivity.
Qed.

Lemma lower_id s : all_chars is_lowered s = true -> lower s = s.
Proof.
  induction s as [|c s IH]; simpl; [reflexivity|].
  intros [Hc Hs]%andb_true_iff. apply Ascii.eqb_eq in Hc.
  rewrite Hc, (IH Hs). reflexivity.
Qed.

(** What one [replace] establishes, given what held before it. *)
Lemma all_chars_replace (p q : ascii -> bool) pat repl s :
  (forall c, p c = true -> Ascii.eqb c pat = false -> q c = true) ->
  all_chars q repl = true ->
  all_chars p s = true ->
  all_chars q (replace pat repl s) = true.
Proof.
  intros Hpq Hr. induction s as [|c s IH]; simpl; [reflexivity|].
  intros [Hc Hs]%andb_true_iff. specialize (IH Hs).
  destruct (Ascii.eqb c pat) eqn:E.
  - rewrite all_chars_app, Hr, IH. reflexivity.
  - simpl. rewrite (Hpq c Hc E), IH. reflexivity.
Qed.

Lemma replace_id pat repl s :
  all_chars (fun c => negb (Ascii.eqb c pat)) s = true ->
  replace pat repl s = s.
Proof.
  induction s as [|c s IH]; simpl; [reflexivity|].
  intros [Hc Hs]%andb_true_iff. apply negb_true_iff in Hc.
  rewrite Hc, (IH Hs). reflexivity.
Qed.

Lemma canonicalize_chars x :
  all_chars canonical_char (canonicalize x) = true.
Proof.
  unfold canonicalize.
  apply (all_chars_replace (stage ["!"]%char));
    [intros c; each_char c | reflexivity |].
  apply (all_chars_replace (stage ["."; "!"]%char));
    [intros c; each_char c | reflexivity |].
  apply (all_chars_replace (stage ["?"; "."; "!"]%char));
    [intros c; each_char c | reflexivity |].
  apply (all_chars_replace (stage ["-"; "?"; "."; "!"]%char));
    [intros c; each_char c | reflexivity |].
  apply (all_chars_replace (stage ["&"; "-"; "?"; "."; "!"]%char));
    [intros c; each_char c | reflexivity |].
  apply (all_chars_replace (stage [" "; "&"; "-"; "?"; "."; "!"]%char));
    [intros c; each_char c | reflexivity |].
  apply (all_chars_replace is_lowered);
    [intros c; each_char c | reflexivity |].
  apply all_chars_lower.
Qed.

Lemma canonical_replace_id pat repl s :
  In pat [dquote; " "; "&"; "-"; "?"; "."; "!"]%char ->
  all_chars canonical_char s = true ->
  replace pat repl s = s.
Proof.
  intros Hin Hs. apply replace_id. revert Hs. apply all_chars_impl.
  intros c Hc. simpl in Hin.
  repeat (destruct Hin as [<- | Hin]; [revert Hc; each_char c|]).
  destruct Hin.
Qed.

(** A second pass only strips: everything after [strip] finds nothing left
    to do. *)
Lemma canonicalize_twice x :
  canonicalize (canonicalize x) = strip (canonicalize x).
Proof.
  assert (H : all_chars canonical_char (strip (canonicalize x)) = true)
    by apply all_chars_strip, canonicalize_chars.
  set (y := canonicalize x) in *. unfold canonicalize.
  assert (Hl : lower (strip y) = strip y).
  { apply lower_id. revert H. apply all_chars_impl.
    intros c Hc. apply andb_true_iff in Hc. apply Hc. }
  rewrite Hl.
  repeat match goal with
         | |- context [replace ?pat ?repl (strip y)] =>
             rewrite (canonical_replace_id pat repl (strip y));
             [| simpl; auto 10 | exact H]
         end.
  reflexivity.
Qed.

(** A label whose only whitespace characters are spaces has a canonical form
    without any whitespace. *)
Lemma canonicalize_no_space x :
  all_chars (fun c => negb (is_space c) || Ascii.eqb c " ") x = true ->
  all_chars (fun c => negb (is_space c)) (canonicalize x) = true.
Proof.
  intros Hx. unfold canonicalize.
  set (ok := fun c => negb (is_space c) || Ascii.eqb c " ").
  do 3 (apply (all_chars_replace (fun c => negb (is_space c)));
        [intros c H _; exact H | reflexivity |]).
  do 2 (apply (all_chars_replace (fun c => negb (is_space c)));
        [intros c H _; exact H | reflexivity |]).
  apply (all_chars_replace ok); [intros c; each_char c | reflexivity |].
  apply (all_chars_replace ok); [intros c H _; exact H | reflexivity |].
  assert (Hs : all_chars ok (strip x) = true) by (apply all_chars_strip, Hx).
  revert Hs. generalize (strip x). intros s.
  induction s as [|c s IH]; simpl; [reflexivity|].
  intros [Hc Hs]%andb_true_iff. rewrite (IH Hs), andb_true_r.
  revert Hc. each_char c.
Qed.

Lemma canonicalize_idempotent_plain x :
  all_chars (fun c => negb (is_space c) || Ascii.eqb c " ") x = true ->
  canonicalize (canonicalize x) = canonicalize x.
Proof.
  intros Hx. rewrite canonicalize_twice.
  apply strip_id, canonicalize_no_space, Hx.
Qed.

(** C4 (as amended).  A second canonicalisation strips the result of the
    first and does nothing else: [canonicalize (canonicalize x)] is
    [strip (canonicalize x)] for every raw label [x], so canonicalisation
    is idempotent at [x] exactly when the canonical form of [x] has no
    whitespace at either end. *)
Theorem canonicalize_idempotent_iff (x : string) :
  canonicalize (canonicalize x) = strip (canonicalize x)
  /\ (canonicalize (canonicalize x) = canonicalize x
      <-> strip (canonicalize x) = canonicalize x).
Proof.
  split; [apply canonicalize_twice|].
  rewrite canonicalize_twice. reflexivity.
Qed.

(** C4 fails as stated: the label made of a question mark, a TAB and [a]
    canonicalises to TAB [a], and that to [a]. *)
Lemma canonicalize_not_idempotent :
  canonicalize (canonicalize (String "?" (String "009" "a")))
  <> canonicalize (String "?" (String "009" "a")).
Proof. vm_compute. discriminate. Qed.

End Canonicalisation.

(** ** Parsing: which lines the parser keeps *)

Section Parsing.




Lemma store_lines_nil : Csv.store_lines [] = [].
Proof. reflexivity. Qed.





End Parsing.

(** ** The working table *)

Section WorkingTable.

Variable L : Library.

Lemma combine_fst_snd {A B C} (f : A -> C) (s : list (A * B)) :
  combine (map f (map fst s)) (map snd s)
  = map (fun lc => (f (fst lc), snd lc)) s.
Proof.
  induction s as [|[a b] s IH]; simpl; [reflexivity|].
  rewrite IH. reflexivity.
Qed.

(** Lines 59-95 touch the labels only. *)
Lemma relabel_series df :
  series (rename COLUMN_MAPPING
            (set_columns (map canonicalize (columns df)) df))
  = map (fun lc => (working_label (fst lc), snd lc)) (series df).
Proof.
  unfold rename, set_columns, columns. cbn [series].
  rewrite combine_fst_snd, map_map. reflexivity.
Qed.

Lemma select_app label s1 s2 :
  select label (s1 ++ s2) = select label s1 ++ select label s2.
Proof. unfold select. rewrite List.filter_app, map_app. reflexivity. Qed.

Lemma select_existsb label s :
  existsb (String.eqb label) (map fst s)
  = match select label s with [] => false | _ :: _ => true end.
Proof.
  unfold select. induction s as [|[l c] s IH]; simpl; [reflexivity|].
  rewrite (String.eqb_sym label l). destruct (String.eqb l label); simpl;
    [reflexivity | exact IH].
Qed.

Lemma select_none label s :
  select label s = [] ->
  forall lc, In lc s -> String.eqb (fst lc) label = false.
Proof.
  unfold select. induction s as [|[l c] s IH]; simpl; [tauto|].
  destruct (String.eqb l label) eqn:E; simpl; [discriminate|].
  intros Hs lc [<- | Hin]; [exact E | apply IH; assumption].
Qed.

Lemma select_one label s c :
  select label s = [c] ->
  forall lc, In lc s -> String.eqb (fst lc) label = true -> snd lc = c.
Proof.
  unfold select. induction s as [|[l c0] s IH]; simpl; [tauto|].
  destruct (String.eqb l label) eqn:E; simpl.
  - intros Hs lc [<- | Hin] Hl.
    + simpl. congruence.
    + injection Hs as _ Hs. apply (select_none label s Hs) in Hin.
      congruence.
  - intros Hs lc [<- | Hin] Hl; [simpl in Hl; congruence|].
    apply IH; assumption.
Qed.

Lemma assign_datetime_series label df df1 :
  assign_datetime L label df = Ok df1 ->
  nrows df1 = nrows df
  /\ series df1
     = map (converted L label) (series df)
       ++ match select label (series df) with
          | [] => [(label, repeat (null_datetime L) (nrows df))]
          | _ :: _ => []
          end.
Proof.
  unfold assign_datetime, df_get, setitem, columns.
  rewrite select_existsb.
  destruct (select label (series df)) as [|c [|c' cs]] eqn:Hsel;
    cbn [to_datetime]; [| destruct (datetime_error L c) |];
    intros H; try discriminate;
    injection H as <-; cbn [nrows series]; (split; [reflexivity|]).
  - f_equal. symmetry. etransitivity; [|apply map_id].
    apply map_ext_in. intros lc Hin. unfold converted.
    rewrite (select_none _ _ Hsel lc Hin). reflexivity.
  - rewrite app_nil_r. apply map_ext_in. intros lc Hin. unfold converted.
    destruct (String.eqb (fst lc) label) eqn:E; [|reflexivity].
    rewrite (select_one _ _ _ Hsel lc Hin E). reflexivity.
Qed.


Lemma assign_datetime_accepted label df df1 :
  assign_datetime L label df = Ok df1 ->
  accepted L (select label (series df)) = true.
Proof.
  unfold assign_datetime, df_get, accepted.
  destruct (select label (series df)) as [|c [|c' cs]]; cbn [to_datetime];
    [reflexivity | | discriminate].
  destruct (datetime_error L c); [discriminate | reflexivity].
Qed.


Lemma select_relabel label s :
  select label (map (fun lc => (working_label (fst lc), snd lc)) s)
  = map snd
      (List.filter (fun lc => String.eqb (working_label (fst lc)) label) s).
Proof.
  unfold select. induction s as [|[l c] s IH]; simpl; [reflexivity|].
  destruct (String.eqb (working_label l) label); simpl; rewrite IH;
    reflexivity.
Qed.

Lemma converted_fst label lc : fst (converted L label lc) = fst lc.
Proof. unfold converted. destruct (String.eqb (fst lc) label); reflexivity. Qed.

Lemma converted_other label label' lc :
  String.eqb label' label = false ->
  String.eqb (fst lc) label = true ->
  converted L label' lc = lc.
Proof.
  intros Hne Hl. unfold converted.
  destruct (String.eqb (fst lc) label') eqn:E; [|reflexivity].
  apply String.eqb_eq in E, Hl. rewrite <- E, Hl, String.eqb_refl in Hne.
  discriminate.
Qed.

Lemma select_converted_other label label' s :
  String.eqb label' label = false ->
  select label (map (converted L label') s) = select label s.
Proof.
  intros Hne. unfold select.
  induction s as [|lc s IH]; [reflexivity|].
  cbn [map List.filter]. rewrite converted_fst.
  destruct (String.eqb (fst lc) label) eqn:El; cbn [map]; rewrite IH;
    [rewrite (converted_other label label' lc Hne El)|]; reflexivity.
Qed.

(** Lines 59-99, column by column: every parsed column stays in its place
    under its working label, with its values converted if that label is one
    of the two timestamp columns and untouched otherwise; a timestamp column
    without a source is added at the end, filled with nulls. *)
Lemma transform_series df df' :
  transform L df = Ok df' ->
  nrows df' = nrows df
  /\ series df'
     = map (working_column L) (series df)
       ++ missing_column L "start_time" df ++ missing_column L "end_time" df.
Proof.
  unfold transform.
  set (df2 := rename COLUMN_MAPPING _).
  assert (Hs2 : series df2
                = map (fun lc => (working_label (fst lc), snd lc)) (series df))
    by apply relabel_series.
  assert (Hn2 : nrows df2 = nrows df) by reflexivity.
  destruct (assign_datetime L "start_time" df2) as [df3|] eqn:H3;
    [|discriminate].
  intros H4.
  apply assign_datetime_series in H3. destruct H3 as [Hn3 Hs3].
  apply assign_datetime_series in H4. destruct H4 as [Hn4 Hs4].
  split; [congruence|].
  rewrite Hs4, Hs3, Hn3, Hn2, Hs2. clear.
  rewrite select_app, map_app, select_converted_other by reflexivity.
  rewrite !select_relabel. fold (sources "start_time" df).
  fold (sources "end_time" df). unfold missing_column.
  rewrite <- app_assoc. f_equal.
  - rewrite !map_map. apply map_ext. intros [l c].
    unfold converted, working_column, working_values, is_timestamp_column.
    cbn [fst snd].
    destruct (String.eqb (working_label l) "start_time") eqn:E1.
    + cbn [fst snd]. apply String.eqb_eq in E1. rewrite E1. reflexivity.
    + cbn [fst snd].
      destruct (String.eqb (working_label l) "end_time") eqn:E2;
        reflexivity.
  - destruct (sources "start_time" df); destruct (sources "end_time" df);
      reflexivity.
Qed.

Lemma select_end_time df df3 :
  assign_datetime L "start_time"
    (rename COLUMN_MAPPING (set_columns (map canonicalize (columns df)) df))
  = Ok df3 ->
  select "end_time" (series df3) = map snd (sources "end_time" df).
Proof.
  intros H3. apply assign_datetime_series in H3. destruct H3 as [_ ->].
  rewrite select_app, select_converted_other, relabel_series, !select_relabel
    by reflexivity.
  fold (sources "start_time" df). fold (sources "end_time" df).
  destruct (map snd (sources "start_time" df)); cbn [select List.filter map];
    rewrite app_nil_r; reflexivity.
Qed.


(** And only then. *)
Lemma transform_convertible df df' :
  transform L df = Ok df' ->
  convertible L "start_time" df = true
  /\ convertible L "end_time" df = true.
Proof.
  unfold transform.
  destruct (assign_datetime L "start_time" _) as [df3|] eqn:H3;
    [|discriminate].
  intros H4. apply assign_datetime_accepted in H4.
  rewrite (select_end_time _ _ H3) in H4.
  apply assign_datetime_accepted in H3.
  rewrite relabel_series, select_relabel in H3.
  split; assumption.
Qed.

End WorkingTable.

(** ** The fields of a record *)

Section Records.

Variable L : Library.

(** What the Series of a row does to a cell. *)
Lemma as_row_value cells v : is_null v = false -> as_row cells v = v.
Proof. intros H. unfold as_row. rewrite H, andb_false_r. reflexivity. Qed.


Lemma as_row_nat cells : as_row cells VNaT = VNaT.
Proof. unfold as_row. destruct (datetimelike cells); reflexivity. Qed.


Lemma coerce_shape c v :
  coerce L c v = VNaT \/ exists ns, coerce L c v = VTimestamp ns.
Proof.
  unfold coerce.
  destruct v as [| | |[|a s]|z|b|b|ns]; auto;
    match goal with
    | |- context [parse_datetime L c ?x] =>
        destruct (parse_datetime L c x); eauto
    end.
Qed.

Lemma as_row_coerce cells c v : as_row cells (coerce L c v) = coerce L c v.
Proof.
  destruct (coerce_shape c v) as [-> | (ns & ->)];
    [apply as_row_nat | apply as_row_value; reflexivity].
Qed.

(** A field of row [i] is looked up among the columns under its label. *)
Lemma row_get_select label df i :
  row_get label (row_at df i)
  = match map (fun c => as_row (row_cells df i) (nth i c VNone))
              (select label (series df)) with
    | [] => Scalar VNone
    | [v] => Scalar v
    | vs => SubSeries vs
    end.
Proof.
  unfold row_get, row_at, select. generalize (row_cells df i). intros cells.
  assert (H : forall s : list (string * list value),
    map snd (List.filter (fun lv : string * value => String.eqb (fst lv) label)
               (map (fun lc => (fst lc, as_row cells (nth i (snd lc) VNone)))
                    s))
    = map (fun c => as_row cells (nth i c VNone))
          (map snd (List.filter (fun lc => String.eqb (fst lc) label) s))).
  { induction s as [|[l c] s IH]; [reflexivity|]. cbn [map List.filter fst].
    destruct (String.eqb l label); cbn [map snd]; rewrite IH; reflexivity. }
  rewrite H. reflexivity.
Qed.

Lemma select_working_columns label s :
  select label (map (working_column L) s)
  = map (working_values L label)
      (map snd
         (List.filter (fun lc => String.eqb (working_label (fst lc)) label)
                      s)).
Proof.
  unfold select. induction s as [|[l c] s IH]; [reflexivity|].
  cbn [map List.filter fst snd working_column].
  destruct (String.eqb (working_label l) label) eqn:E; cbn [map snd];
    rewrite IH; [|reflexivity].
  apply String.eqb_eq in E. unfold working_column. cbn [fst snd].
  rewrite E. reflexivity.
Qed.

Lemma select_missing label l df :
  select label (missing_column L l df)
  = if String.eqb l label then map snd (missing_column L l df) else [].
Proof.
  unfold select, missing_column.
  destruct (sources l df); cbn [List.filter map fst snd];
    destruct (String.eqb l label); reflexivity.
Qed.

(** The columns a label selects in the table [transform] returns. *)
Lemma select_working label df df' :
  transform L df = Ok df' ->
  select label (series df') = working_selection L label df.
Proof.
  intros H. apply transform_series in H. destruct H as [_ ->].
  rewrite !select_app, select_working_columns, !select_missing.
  unfold working_selection, is_timestamp_column. fold (sources label df).
  f_equal.
  rewrite (String.eqb_sym "start_time" label).
  rewrite (String.eqb_sym "end_time" label).
  destruct (String.eqb label "start_time") eqn:E1.
  - apply String.eqb_eq in E1. subst label. cbn [orb String.eqb].
    rewrite app_nil_r. reflexivity.
  - destruct (String.eqb label "end_time") eqn:E2; [|reflexivity].
    apply String.eqb_eq in E2. subst label. reflexivity.
Qed.

(** A field of a record of the working table, from the parsed table. *)
Lemma row_get_working label df df' i :
  transform L df = Ok df' ->
  row_get label (row_at df' i)
  = match map (fun c => as_row (row_cells df' i) (nth i c VNone))
              (working_selection L label df) with
    | [] => Scalar VNone
    | [v] => Scalar v
    | vs => SubSeries vs
    end.
Proof.
  intros H. rewrite row_get_select, (select_working _ _ _ H). reflexivity.
Qed.


Lemma nth_repeat_or_default {A} (v d : A) n i :
  nth i (repeat v n) d = v \/ nth i (repeat v n) d = d.
Proof.
  revert i. induction n as [|n IH]; intros [|i]; simpl; auto.
Qed.







End Records.

(** ** Renaming and the insert projection *)

Section Renaming.

Variable L : Library.




(** Lines 98-99 succeed only if neither timestamp label is repeated. *)
Lemma transform_unique df df' :
  transform L df = Ok df' ->
  length (sources "start_time" df) <= 1
  /\ length (sources "end_time" df) <= 1.
Proof.
  intros H. apply transform_convertible in H. destruct H as [H1 H2].
  unfold convertible, accepted in H1, H2.
  destruct (sources "start_time" df) as [|? [|? ?]];
    destruct (sources "end_time" df) as [|? [|? ?]];
    simpl in *; try discriminate; lia.
Qed.



Lemma records_ext df1 df2 :
  nrows df1 = nrows df2 ->
  (forall i label, In label INSERT_COLUMNS ->
     row_get label (row_at df1 i) = row_get label (row_at df2 i)) ->
  records df1 = records df2.
Proof.
  intros Hn H. unfold records, iterrows. rewrite Hn, !map_map.
  apply map_ext. intros i. unfold insert_params.
  apply map_ext_in. intros label Hin. apply H, Hin.
Qed.










End Renaming.

(** ** From the lines of the input to the records *)

Section Order.

Variable L : Library.








End Order.

(** ** The run: what is committed, and when *)

Section Commit.

Lemma uncommitted_refl w : uncommitted w w.
Proof.
  split; [reflexivity|]. exists []. rewrite app_nil_r. split; [reflexivity|].
  intros [].
Qed.

Lemma uncommitted_trans w1 w2 w3 :
  uncommitted w1 w2 -> uncommitted w2 w3 -> uncommitted w1 w3.
Proof.
  intros [Hc1 (e1 & Ht1 & Hn1)] [Hc2 (e2 & Ht2 & Hn2)]. split; [congruence|].
  exists (e1 ++ e2). rewrite Ht2, Ht1, app_assoc. split; [reflexivity|].
  rewrite in_app_iff. tauto.
Qed.

Lemma quiet_ret {A} (a : A) : quiet (ret a).
Proof. intros w. apply uncommitted_refl. Qed.

Lemma quiet_raise {A} e : quiet (@raise A e).
Proof. intros w. apply uncommitted_refl. Qed.

Lemma quiet_lift {A} (r : result A) : quiet (lift r).
Proof. intros w. apply uncommitted_refl. Qed.

Lemma quiet_log ev : ev <> Commit -> quiet (log ev).
Proof.
  intros Hev w. split; [reflexivity|]. exists [ev]. split; [reflexivity|].
  intros [H|[]]. congruence.
Qed.

Lemma quiet_set_session s : quiet (set_session s).
Proof.
  intros w. split; [reflexivity|]. exists []. simpl. rewrite app_nil_r.
  split; [reflexivity | intros []].
Qed.

Lemma quiet_bind {A B} (m : M A) (f : A -> M B) :
  quiet m -> (forall a, quiet (f a)) -> quiet (bind m f).
Proof.
  intros Hm Hf w. unfold bind. specialize (Hm w).
  destruct (m w) as [[a|e] w1]; simpl in *; [|exact Hm].
  eapply uncommitted_trans; [exact Hm | apply Hf].
Qed.

Lemma quiet_connect env : quiet (connect env).
Proof.
  unfold connect. apply quiet_bind; [apply quiet_log; discriminate|].
  intros _. destruct (can_connect env); [|apply quiet_raise].
  intros w. apply (quiet_set_session (Some (committed w)) w).
Qed.

Lemma quiet_execute env q : quiet (execute env q).
Proof.
  unfold execute. apply quiet_bind; [apply quiet_log; discriminate|].
  intros _ w. destruct (session w) as [d|]; [|apply quiet_raise].
  revert w. change (quiet
    (match q with
     | InsertInto _ _ params =>
         match adapt params with
         | Some _ => ret tt
         | None => raise ProgrammingError
         end
     | _ => ret tt
     end >>
     (if server_accepts env q then ret tt else raise DatabaseError) >>
     let* d' := lift (exec d q) in set_session (Some d'))).
  apply quiet_bind.
  { destruct q; try apply quiet_ret.
    destruct (adapt params); [apply quiet_ret | apply quiet_raise]. }
  intros _. apply quiet_bind.
  { destruct (server_accepts env q); [apply quiet_ret | apply quiet_raise]. }
  intros _. apply quiet_bind; [apply quiet_lift|].
  intros d'. apply quiet_set_session.
Qed.

Lemma quiet_for_each {A} (xs : list A) body :
  (forall x, quiet (body x)) -> quiet (for_each xs body).
Proof.
  intros Hb. induction xs as [|x xs IH]; simpl; [apply quiet_ret|].
  apply quiet_bind; [apply Hb | intros _; exact IH].
Qed.

Lemma all_or_nothing_quiet {A} (m : M A) : quiet m -> all_or_nothing m.
Proof. intros H w _. apply H. Qed.

Lemma all_or_nothing_bind {A B} (m : M A) (f : A -> M B) :
  quiet m -> (forall a, all_or_nothing (f a)) -> all_or_nothing (bind m f).
Proof.
  intros Hm Hf w. unfold bind. specialize (Hm w). specialize (Hf).
  destruct (m w) as [[a|e] w1] eqn:E; simpl in *; intros Hfail;
    [|exact Hm].
  eapply uncommitted_trans; [exact Hm | apply Hf, Hfail].
Qed.

(** Once the inserts are through, nothing fails any more. *)
Lemma finish_ok w : is_ok (fst ((commit >> log CursorClose >> close) w)) = true.
Proof. reflexivity. Qed.

(** The single commit is the last thing that can happen to the database:
    a load that fails has committed nothing. *)
Lemma all_or_nothing_load env df : all_or_nothing (load env df).
Proof.
  unfold load.
  apply all_or_nothing_bind; [apply quiet_connect|]. intros _.
  do 3 (apply all_or_nothing_bind; [apply quiet_execute|]; intros _).
  apply all_or_nothing_bind.
  { apply quiet_for_each. intros row. apply quiet_execute. }
  intros _ w Hfail. rewrite finish_ok in Hfail. discriminate.
Qed.

Lemma all_or_nothing_pipeline L env : all_or_nothing (pipeline L env).
Proof.
  unfold pipeline. apply all_or_nothing_bind.
  { unfold requests_get. apply quiet_bind; [apply quiet_log; discriminate|].
    intros _. apply quiet_ret. }
  intros resp. destruct (bool_decide (status_code resp ≠ 200%Z)).
  { apply all_or_nothing_quiet, quiet_raise. }
  apply all_or_nothing_bind; [apply quiet_log; discriminate|]. intros _.
  apply all_or_nothing_bind; [apply quiet_lift|]. intros df.
  apply all_or_nothing_bind; [apply quiet_lift|]. intros df'.
  apply all_or_nothing_load.
Qed.

(** A run that fails leaves the database as it found it. *)
Lemma failed_run L env db :
  succeeded (run L env db) = false ->
  database_after (run L env db) = db /\ ~ In Commit (events (run L env db)).
Proof.
  intros Hfail. destruct (all_or_nothing_pipeline L env _ Hfail)
    as [Hc (evs & Ht & Hn)].
  split; [exact Hc|]. unfold events, run. rewrite Ht. exact Hn.
Qed.

End Commit.

(** ** The run: what a successful load writes *)

Section Load.

Lemma bind_ok {A B} (m : M A) (f : A -> M B) w b w' :
  bind m f w = (Ok b, w') ->
  exists a w1, m w = (Ok a, w1) /\ f a w1 = (Ok b, w').
Proof.
  unfold bind. destruct (m w) as [[a|e] w1]; [|discriminate].
  intros H. exists a, w1. split; [reflexivity | exact H].
Qed.

Lemma adapt_some params vs : adapt params = Some vs -> map Scalar vs = params.
Proof.
  revert vs. induction params as [|[v|vs'] ps IH]; simpl; intros vs H.
  - injection H as <-. reflexivity.
  - destruct (adapt ps) as [vs0|]; [|discriminate]. injection H as <-.
    simpl. rewrite (IH vs0 eq_refl). reflexivity.
  - discriminate.
Qed.

Lemma connect_ok env w w' :
  connect env w = (Ok tt, w') ->
  can_connect env = true
  /\ w' = {| committed := committed w; session := Some (committed w);
             trace := trace w ++ [Connect] |}.
Proof.
  unfold connect, bind, log. destruct (can_connect env); [|discriminate].
  intros H. injection H as <-. split; reflexivity.
Qed.

(** A statement that goes through was accepted by the server and changed
    the view of the connection, nothing else. *)
Lemma execute_ok env q w w' :
  execute env q w = (Ok tt, w') ->
  exists d d',
    session w = Some d
    /\ server_accepts env q = true
    /\ exec d q = Ok d'
    /\ w' = {| committed := committed w; session := Some d';
               trace := trace w ++ [Execute q] |}.
Proof.
  unfold execute. intros H. apply bind_ok in H.
  destruct H as ([] & w1 & Hlog & H). injection Hlog as <-.
  cbn [session] in H. destruct (session w) as [d|]; [|discriminate].
  apply bind_ok in H. destruct H as ([] & w2 & H2 & H).
  assert (Hw2 : w2 = {| committed := committed w; session := Some d;
                        trace := trace w ++ [Execute q] |}).
  { unfold ret, raise in H2.
    destruct q as [s|s t|s t|s t ps]; try (injection H2 as <-; reflexivity).
    destruct (adapt ps); [injection H2 as <-; reflexivity|discriminate]. }
  apply bind_ok in H. destruct H as ([] & w3 & H3 & H).
  unfold ret, raise in H3.
  destruct (server_accepts env q); [|discriminate]. injection H3 as <-.
  apply bind_ok in H. destruct H as (d' & w4 & H4 & H).
  unfold lift in H4. injection H4 as H4 <-.
  unfold set_session in H. injection H as <-.
  exists d, d'. subst w2. repeat split; auto.
Qed.

Lemma stored_numbered start vss :
  map (fun r : Z * list value => map Scalar (snd r)) (numbered start vss)
  = map (map Scalar) vss.
Proof.
  revert start. induction vss as [|vs vss IH]; intros start;
    [reflexivity|].
  cbn [numbered map snd]. rewrite IH. reflexivity.
Qed.

Lemma ids_numbered start vss :
  map fst (numbered start vss)
  = map (fun i => (start + Z.of_nat i)%Z) (seq 0 (length vss)).
Proof.
  revert start. induction vss as [|vs vss IH]; intros start;
    [reflexivity|].
  cbn [numbered map fst length seq]. rewrite Z.add_0_r. f_equal.
  rewrite IH, <- seq_shift, map_map. apply map_ext. intros i. lia.
Qed.

(** The insert loop: when it goes through, every row was adapted and
    accepted, and the table of the connection's view has one more row for
    each, in the order of the loop. *)
Lemma insert_loop_ok env rows : forall w w' d tb,
  for_each rows
    (fun row => execute env
                  (InsertInto SCHEMA_NAME TABLE_NAME (insert_params row))) w
  = (Ok tt, w') ->
  session w = Some d ->
  tables d !! (SCHEMA_NAME, TABLE_NAME) = Some tb ->
  exists vss d' tb',
    map (map Scalar) vss = map insert_params rows
    /\ Forall (fun row =>
                 server_accepts env (insert_statement (insert_params row))
                 = true) rows
    /\ committed w' = committed w
    /\ trace w'
       = trace w
         ++ map (fun row => Execute (insert_statement (insert_params row)))
                rows
    /\ session w' = Some d'
    /\ tables d' !! (SCHEMA_NAME, TABLE_NAME) = Some tb'
    /\ table_rows tb' = table_rows tb ++ numbered (next_id tb) vss.
Proof.
  induction rows as [|row rows IH]; intros w w' d tb Hrun Hs Htb.
  - injection Hrun as <-. exists [], d, tb. cbn [map numbered].
    rewrite !app_nil_r. repeat split; auto.
  - cbn [for_each] in Hrun. apply bind_ok in Hrun.
    destruct Hrun as ([] & w1 & H1 & Hrun).
    apply execute_ok in H1. destruct H1 as (d0 & d1 & Hs0 & Hacc & Hex & ->).
    rewrite Hs in Hs0. injection Hs0 as <-.
    cbn [exec] in Hex. rewrite Htb in Hex.
    destruct (adapt (insert_params row)) as [vs|] eqn:Had; [|discriminate].
    injection Hex as <-.
    set (tb1 := {| next_id := (next_id tb + 1)%Z;
                   table_rows := table_rows tb ++ [(next_id tb, vs)] |})
      in *.
    specialize (IH _ _ _ tb1 Hrun eq_refl (lookup_insert_eq _ _ _)).
    destruct IH as (vss & d' & tb' & Hv & Hall & Hc & Ht & Hs' & Htb' & Hr).
    exists (vs :: vss), d', tb'. cbn [map numbered].
    rewrite Hv, (adapt_some _ _ Had). repeat split; auto.
    + rewrite Ht. cbn [trace]. rewrite <- app_assoc. reflexivity.
    + rewrite Hr. cbn [table_rows next_id tb1]. rewrite <- app_assoc.
      reflexivity.
Qed.

(** The Loader, when it goes through: the destination table holds the
    records of the table it was given, numbered from 1, whatever the
    database held before; the trace is the connection, the three DDL
    statements, one INSERT for each record, and the commit. *)
Lemma load_ok env df w w' :
  load env df w = (Ok tt, w') ->
  exists tb,
    destination (committed w') = Some tb
    /\ stored_values tb = records df
    /\ map fst (table_rows tb)
       = map (fun i => (1 + Z.of_nat i)%Z) (seq 0 (nrows df))
    /\ Forall (fun r => server_accepts env (insert_statement r) = true)
              (records df)
    /\ trace w'
       = trace w
         ++ [Connect;
             Execute (CreateSchemaIfNotExists SCHEMA_NAME);
             Execute (DropTableIfExists SCHEMA_NAME TABLE_NAME);
             Execute (CreateTable SCHEMA_NAME TABLE_NAME)]
         ++ map (fun r => Execute (insert_statement r)) (records df)
         ++ [Commit; CursorClose; ConnClose].
Proof.
  unfold load. intros H.
  apply bind_ok in H. destruct H as ([] & w1 & H1 & H).
  apply connect_ok in H1. destruct H1 as [_ ->].
  apply bind_ok in H. destruct H as ([] & w2 & H2 & H).
  apply execute_ok in H2. destruct H2 as (d0 & d1 & Hs0 & _ & Hex1 & ->).
  injection Hs0 as <-. injection Hex1 as <-.
  apply bind_ok in H. destruct H as ([] & w3 & H3 & H).
  apply execute_ok in H3. destruct H3 as (d1 & d2 & Hs1 & _ & Hex2 & ->).
  injection Hs1 as <-. injection Hex2 as <-.
  apply bind_ok in H. destruct H as ([] & w4 & H4 & H).
  apply execute_ok in H4. destruct H4 as (d2 & d3 & Hs2 & _ & Hex3 & ->).
  injection Hs2 as <-. cbn [exec schemas tables] in Hex3.
  destruct (bool_decide _); [|discriminate].
  rewrite lookup_delete_eq in Hex3. injection Hex3 as <-.
  apply bind_ok in H. destruct H as ([] & w5 & H5 & H).
  eapply insert_loop_ok in H5; [|reflexivity|apply lookup_insert_eq].
  destruct H5 as (vss & d' & tb' & Hv & Hall & Hc & Ht & Hs' & Htb' & Hr).
  cbn [table_rows next_id app] in Hr.
  assert (Hw' : committed w' = d'
                /\ trace w' = trace w5 ++ [Commit; CursorClose; ConnClose]).
  { unfold commit, close, bind, log, set_session in H. cbn in H.
    injection H as <-. cbn. rewrite Hs'. cbn. rewrite <- !app_assoc.
    split; reflexivity. }
  destruct Hw' as [Hcw' Htw'].
  exists tb'. unfold destination. rewrite Hcw'. split; [exact Htb'|].
  unfold stored_values. rewrite Hr, stored_numbered.
  fold (records df) in Hv. unfold records at 1 in Hv.
  split; [exact Hv|]. split.
  - rewrite ids_numbered.
    assert (Hlen : length vss = nrows df).
    { apply (f_equal (@length _)) in Hv.
      unfold iterrows in Hv. rewrite !length_map, length_seq in Hv.
      exact Hv. }
    rewrite Hlen. reflexivity.
  - split.
    + unfold records. apply Forall_map. exact Hall.
    + rewrite Htw', Ht. cbn [trace]. unfold records. rewrite map_map.
      rewrite <- !app_assoc. reflexivity.
Qed.

(** A run that ends well got the data, read and converted the table, and
    loaded it. *)
Lemma run_ok L env db :
  succeeded (run L env db) = true ->
  status_code (response env) = 200%Z
  /\ exists df df' w',
       read_csv L (text (response env)) = Ok df
       /\ transform L df = Ok df'
       /\ load env df' {| committed := db; session := None;
                          trace := [HttpGet; ReadCsv] |} = (Ok tt, w')
       /\ run L env db = (Ok tt, w').
Proof.
  unfold succeeded, run. intros Hok.
  destruct (pipeline L env _) as [[[]|e] w'] eqn:Hrun; [|discriminate].
  clear Hok. unfold pipeline in Hrun.
  apply bind_ok in Hrun. destruct Hrun as (resp & w1 & Hget & Hrun).
  unfold requests_get, bind, log, ret in Hget. injection Hget as <- <-.
  destruct (bool_decide_reflect (status_code (response env) ≠ 200%Z))
    as [Hne|Heq]; [discriminate|].
  split; [destruct (Z.eq_dec (status_code (response env)) 200%Z);
          [assumption | contradiction]|].
  apply bind_ok in Hrun. destruct Hrun as ([] & w2 & Hlog & Hrun).
  unfold log in Hlog. injection Hlog as <-.
  apply bind_ok in Hrun. destruct Hrun as (df & w3 & Hread & Hrun).
  unfold lift in Hread. injection Hread as Hread <-.
  apply bind_ok in Hrun. destruct Hrun as (df' & w4 & Htr & Hrun).
  unfold lift in Htr. injection Htr as Htr <-.
  exists df, df', w'. cbn [committed session trace app] in Hrun.
  repeat split; auto.
Qed.

End Load.

(** ** The run: the three claims about it *)

Section Run.

Variable L : Library.

Lemma adapt_scalars vs : adapt (map Scalar vs) = Some vs.
Proof.
  induction vs as [|v vs IH]; [reflexivity|]. simpl. rewrite IH. reflexivity.
Qed.

(** C9.  Any status other than 200 ends the run with the extraction error
    right after the request: the table is not read, no connection is opened,
    no statement is executed, and the database is as it was. *)
Theorem extraction_failure (env : environment) (db : database) :
  status_code (response env) ≠ 200%Z ->
  run L env db
  = (Raise FetchFailed,
     {| committed := db; session := None; trace := [HttpGet] |}).
Proof.
  intros Hne. unfold run, pipeline, requests_get, bind, log, ret, raise.
  cbn [committed session trace app]. rewrite bool_decide_true by exact Hne.
  reflexivity.
Qed.

(** C1.  After a run that ends well, the destination table holds exactly the
    records of the table the run read and converted, one row for each, in
    their order and numbered from 1, whatever the database held before the
    run (so also when it held the rows of an earlier run). *)
Theorem replace_load (env : environment) (db : database) :
  succeeded (run L env db) = true ->
  exists df df' tb,
    read_csv L (text (response env)) = Ok df
    /\ transform L df = Ok df'
    /\ destination (database_after (run L env db)) = Some tb
    /\ stored_values tb = records df'
    /\ map fst (table_rows tb)
       = map (fun i => (1 + Z.of_nat i)%Z) (seq 0 (nrows df))
    /\ length (table_rows tb) = length (records df').
Proof.
  intros Hok. apply run_ok in Hok.
  destruct Hok as (_ & df & df' & w' & Hread & Htr & Hload & Hrun).
  apply load_ok in Hload.
  destruct Hload as (tb & Hdest & Hvals & Hids & _ & _).
  exists df, df', tb. unfold database_after. rewrite Hrun. cbn [snd].
  repeat split; auto.
  - rewrite Hids. apply transform_series in Htr. destruct Htr as [-> _].
    reflexivity.
  - rewrite <- Hvals. unfold stored_values. rewrite length_map. reflexivity.
Qed.

(** C2.  A run that ends well has committed once, after the last INSERT and
    before closing.  A run that does not end well has committed nothing: the
    database is as it was before the run.  And a run in which the driver or
    the server refuses the INSERT of some record does not end well. *)
Theorem load_atomic (env : environment) (db : database) :
  (succeeded (run L env db) = true ->
   exists df df',
     read_csv L (text (response env)) = Ok df
     /\ transform L df = Ok df'
     /\ events (run L env db)
        = [HttpGet; ReadCsv; Connect;
           Execute (CreateSchemaIfNotExists SCHEMA_NAME);
           Execute (DropTableIfExists SCHEMA_NAME TABLE_NAME);
           Execute (CreateTable SCHEMA_NAME TABLE_NAME)]
          ++ map (fun r => Execute (insert_statement r)) (records df')
          ++ [Commit; CursorClose; ConnClose])
  /\ (succeeded (run L env db) = false ->
      database_after (run L env db) = db
      /\ ~ In Commit (events (run L env db)))
  /\ (forall df df' r,
        read_csv L (text (response env)) = Ok df ->
        transform L df = Ok df' ->
        In r (records df') ->
        server_accepts env (insert_statement r) = false \/ adapt r = None ->
        succeeded (run L env db) = false).
Proof.
  split; [|split].
  - intros Hok. apply run_ok in Hok.
    destruct Hok as (_ & df & df' & w' & Hread & Htr & Hload & Hrun).
    apply load_ok in Hload. destruct Hload as (tb & _ & _ & _ & _ & Ht).
    exists df, df'. unfold events. rewrite Hrun. cbn [snd].
    repeat split; auto.
  - apply failed_run.
  - intros df df' r Hread Htr Hin Hbad.
    destruct (succeeded (run L env db)) eqn:Hok; [|reflexivity].
    apply run_ok in Hok.
    destruct Hok as (_ & df0 & df0' & w' & Hread0 & Htr0 & Hload & _).
    rewrite Hread in Hread0. injection Hread0 as <-.
    rewrite Htr in Htr0. injection Htr0 as <-.
    apply load_ok in Hload. destruct Hload as (tb & _ & Hvals & _ & Hall & _).
    destruct Hbad as [Hrej | Hadapt].
    + rewrite List.Forall_forall in Hall. rewrite (Hall r Hin) in Hrej.
      discriminate.
    + rewrite <- Hvals in Hin. unfold stored_values in Hin.
      apply in_map_iff in Hin. destruct Hin as (row & <- & _).
      rewrite adapt_scalars in Hadapt. discriminate.
Qed.

End Run.

(** * The claims on concrete inputs *)

Section Instances.

Local Existing Instance sample_library.

(** The first two end-to-end scenarios of the specification. *)
Example scenario1_records :
  read_csv sample_library scenario1_text = Ok scenario1_frame
  /\ transform sample_library scenario1_frame = Ok scenario1_working
  /\ map (fun d => row_get d (row_at scenario1_working 0))
         ["start_time"; "end_time"; "gender"]
     = [ Scalar (VTimestamp 1704103200000000000);
         Scalar (VTimestamp 1704105000000000000);
         Scalar (VStr "Female") ].
Proof. repeat split; vm_compute; reflexivity. Qed.

Example scenario2_label :
  canonicalize "Name of Organisation?" = "name_of_organisation"
  /\ working_label "Name of Organisation?" = "name_of_organization".
Proof. split; vm_compute; reflexivity. Qed.

Lemma extraction_failure_witness :
  run sample_library (friendly 401 scenario1_text) empty_database
  = (Raise FetchFailed,
     {| committed := empty_database; session := None; trace := [HttpGet] |}).
Proof.
  apply (extraction_failure sample_library (friendly 401 scenario1_text)
           empty_database).
  simpl. lia.
Defined.

(** The second of two runs leaves its own two rows and nothing of the
    first. *)
Lemma replace_load_witness :
  succeeded (run sample_library (friendly 200 second_text) after_first_run)
  = true
  /\ exists df df' tb,
       read_csv sample_library (text (response (friendly 200 second_text)))
       = Ok df
       /\ transform sample_library df = Ok df'
       /\ destination
            (database_after
               (run sample_library (friendly 200 second_text)
                  after_first_run)) = Some tb
       /\ stored_values tb = records df'
       /\ map fst (table_rows tb)
          = map (fun i => (1 + Z.of_nat i)%Z) (seq 0 (nrows df))
       /\ length (table_rows tb) = length (records df').
Proof.
  split; [vm_compute; reflexivity|].
  apply (replace_load sample_library (friendly 200 second_text)
           after_first_run).
  vm_compute. reflexivity.
Defined.

(** A refused INSERT: the run fails and the database stays empty. *)
Lemma load_atomic_witness :
  succeeded (run sample_library (refusing scenario1_text) empty_database)
  = false
  /\ database_after
       (run sample_library (refusing scenario1_text) empty_database)
     = empty_database.
Proof.
  destruct (load_atomic sample_library (refusing scenario1_text)
              empty_database) as (_ & Hfail & Hrej).
  assert (H : succeeded
                (run sample_library (refusing scenario1_text) empty_database)
              = false).
  { apply (Hrej scenario1_frame scenario1_working
             (insert_params (row_at scenario1_working 0))).
    - vm_compute. reflexivity.
    - vm_compute. reflexivity.
    - left. reflexivity.
    - left. reflexivity. }
  split; [exact H | apply (Hfail H)].
Defined.













End Instances.

(** * Further properties of the script *)

(** ** More on labels (lines 59-70) *)

Section LabelShape.

Local Ltac every_char c :=
  destruct c as [[] [] [] [] [] [] [] []]; vm_compute; try reflexivity;
  try discriminate; intuition (try discriminate).

Lemma all_chars_Forall p s :
  all_chars p s = true <-> Forall (fun c => p c = true) (chars s).
Proof.
  induction s as [|c s IH]; simpl.
  - split; [constructor | reflexivity].
  - rewrite andb_true_iff, IH. split.
    + intros [Hc Hs]. constructor; assumption.
    + intros H. inversion H; subst. split; assumption.
Qed.

(** X1.  A canonical label is made of lower-case characters only and holds none
    of the seven characters the chain replaces or removes, whatever the raw
    label was. *)
Theorem canonical_label_alphabet (x : string) (c : ascii) :
  In c (chars (canonicalize x)) ->
  lower_char c = c
  /\ ~ In c [dquote; " "; "&"; "-"; "?"; "."; "!"]%char.
Proof.
  intros Hin. pose proof (canonicalize_chars x) as H.
  apply all_chars_Forall in H. rewrite List.Forall_forall in H.
  specialize (H c Hin). clear Hin. revert H. every_char c.
Qed.

Lemma is_space_lower c : is_space (lower_char c) = is_space c.
Proof. every_char c. Qed.

Lemma lstrip_lower s : lstrip (lower s) = lower (lstrip s).
Proof.
  induction s as [|c s IH]; simpl; [reflexivity|].
  rewrite is_space_lower. destruct (is_space c); [exact IH | reflexivity].
Qed.

Lemma rstrip_lower s : rstrip (lower s) = lower (rstrip s).
Proof.
  induction s as [|c s IH]; simpl; [reflexivity|].
  rewrite IH, is_space_lower.
  destruct (rstrip s); simpl; [destruct (is_space c)|]; reflexivity.
Qed.

Lemma strip_lower s : strip (lower s) = lower (strip s).
Proof. unfold strip. rewrite lstrip_lower, rstrip_lower. reflexivity. Qed.

Lemma lower_lower s : lower (lower s) = lower s.
Proof. apply lower_id, all_chars_lower. Qed.

Lemma lstrip_lstrip s : lstrip (lstrip s) = lstrip s.
Proof.
  induction s as [|c s IH]; simpl; [reflexivity|].
  destruct (is_space c) eqn:E; [exact IH|]. simpl. rewrite E. reflexivity.
Qed.

Lemma rstrip_rstrip s : rstrip (rstrip s) = rstrip s.
Proof.
  induction s as [|c s IH]; simpl; [reflexivity|].
  destruct (rstrip s) as [|d r] eqn:E.
  - destruct (is_space c) eqn:Ec; simpl; [reflexivity|].
    rewrite Ec. reflexivity.
  - change (rstrip (String c (String d r)) = String c (String d r)).
    cbn [rstrip]. cbn [rstrip] in IH. rewrite IH. reflexivity.
Qed.

Lemma lstrip_rstrip s : lstrip (rstrip s) = rstrip (lstrip s).
Proof.
  induction s as [|c s IH]; simpl; [reflexivity|].
  destruct (is_space c) eqn:Ec.
  - destruct (rstrip s) as [|d r] eqn:E.
    + rewrite <- IH. reflexivity.
    + simpl. rewrite Ec. exact IH.
  - destruct (rstrip s) as [|d r] eqn:E; simpl; rewrite Ec, ?E; reflexivity.
Qed.

Lemma strip_strip s : strip (strip s) = strip s.
Proof.
  unfold strip. rewrite lstrip_rstrip, lstrip_lstrip, rstrip_rstrip.
  reflexivity.
Qed.

(** X2.  Canonicalisation does not see the case of a raw label, nor the
    whitespace around it. *)
Theorem canonicalize_ignores_case_and_margins (x : string) :
  canonicalize (lower x) = canonicalize x
  /\ canonicalize (strip x) = canonicalize x.
Proof.
  unfold canonicalize. split.
  - rewrite strip_lower, lower_lower. reflexivity.
  - rewrite strip_strip. reflexivity.
Qed.

(** X3.  A raw label whose only whitespace characters are spaces has a canonical
    form without any whitespace, which a second canonicalisation leaves as
    it is. *)
Theorem plain_label_idempotent (x : string) :
  plain_label x = true ->
  all_chars (fun c => negb (is_space c)) (canonicalize x) = true
  /\ canonicalize (canonicalize x) = canonicalize x.
Proof.
  intros Hx. unfold plain_label in Hx.
  pose proof (canonicalize_no_space x Hx) as Hns.
  split; [exact Hns|]. rewrite canonicalize_twice. apply strip_id, Hns.
Qed.

End LabelShape.

(** ** The mapping and the INSERT (lines 78-95 and 161-192) *)

Section Mapping.

Lemma mapping_entry k d :
  COLUMN_MAPPING !! k = Some d ->
  In (k, d)
    [ ("start", "start_time");
      ("end", "end_time");
      ("nationality", "nationality");
      ("region", "region");
      ("school_name", "school_name");
      ("level_of_study", "level_of_study");
      ("gender", "gender");
      ("age", "age");
      ("gps_coordinates", "gps_coordinates");
      ("name_of_organisation", "name_of_organization");
      ("your_current_position_in_the_organization", "current_position");
      ("years_of_work_experience", "years_of_experience");
      ("which_specific_energy_domain_does_your_organization_concentrate_on",
         "energy_domain");
      ("i_give_consent_for_my_information_to_be_collected_and_used_for_research_purposes",
         "consent") ].
Proof.
  intros H. apply elem_of_list_to_map_2 in H. apply list_elem_of_In in H.
  exact H.
Qed.

(** X4.  Every key of the mapping is a label the cleaning of lines 59-70 can
    produce and leaves alone: a header that reads like the key is renamed
    to the key's destination. *)
Theorem mapping_keys_canonical (k d : string) :
  COLUMN_MAPPING !! k = Some d ->
  canonicalize k = k /\ working_label k = d.
Proof.
  intros H. apply mapping_entry in H. simpl in H.
  repeat (destruct H as [H | H];
          [injection H as <- <-; split; vm_compute; reflexivity|]).
  destruct H.
Qed.

(** X5.  No destination is itself a key with another destination: renaming a
    renamed table changes nothing. *)
Theorem rename_idempotent (df : DataFrame) :
  rename COLUMN_MAPPING (rename COLUMN_MAPPING df) = rename COLUMN_MAPPING df.
Proof.
  unfold rename. cbn [nrows series]. f_equal. rewrite map_map.
  apply map_ext. intros [l c]. cbn [fst snd]. f_equal.
  unfold lookup_label at 2. destruct (COLUMN_MAPPING !! l) as [d|] eqn:E.
  - cbn [default]. apply mapping_entry in E. simpl in E.
    repeat (destruct E as [E | E];
            [injection E as <- <-; vm_compute; reflexivity|]).
    destruct E.
  - cbn [default]. unfold lookup_label. rewrite E. reflexivity.
Qed.

Local Ltac only_key key :=
  exists key; split; [vm_compute; reflexivity|];
  let k' := fresh "k" in
  let H := fresh "H" in
  intros k' H; apply mapping_entry in H; simpl in H;
  repeat (destruct H as [H | H];
          [first [discriminate H | injection H as <-; reflexivity]|]);
  destruct H.

(** X6.  The mapping and the INSERT agree: each of the fourteen columns of the
    INSERT is the destination of one key of the mapping, and of one only. *)
Theorem insert_columns_mapped (d : string) :
  In d INSERT_COLUMNS ->
  exists k, COLUMN_MAPPING !! k = Some d
            /\ forall k', COLUMN_MAPPING !! k' = Some d -> k' = k.
Proof.
  intros Hd. simpl in Hd.
  destruct Hd as [<- | Hd]; [only_key "start"|].
  destruct Hd as [<- | Hd]; [only_key "end"|].
  destruct Hd as [<- | Hd]; [only_key "nationality"|].
  destruct Hd as [<- | Hd]; [only_key "region"|].
  destruct Hd as [<- | Hd]; [only_key "school_name"|].
  destruct Hd as [<- | Hd]; [only_key "level_of_study"|].
  destruct Hd as [<- | Hd]; [only_key "gender"|].
  destruct Hd as [<- | Hd]; [only_key "age"|].
  destruct Hd as [<- | Hd]; [only_key "gps_coordinates"|].
  destruct Hd as [<- | Hd]; [only_key "name_of_organisation"|].
  destruct Hd as [<- | Hd];
    [only_key "your_current_position_in_the_organization"|].
  destruct Hd as [<- | Hd]; [only_key "years_of_work_experience"|].
  destruct Hd as [<- | Hd];
    [only_key
       "which_specific_energy_domain_does_your_organization_concentrate_on"|].
  destruct Hd as [<- | Hd];
    [only_key
       "i_give_consent_for_my_information_to_be_collected_and_used_for_research_purposes"|].
  destruct Hd.
Qed.

End Mapping.

(** ** The shape of the tables (lines 48-99) *)

Section Shape.

Variable L : Library.

Lemma length_enumerate {A} (l : list A) : length (enumerate l) = length l.
Proof.
  unfold enumerate. rewrite length_combine, length_seq. lia.
Qed.

Lemma length_header_names hdr : length (header_names L hdr) = length hdr.
Proof.
  unfold header_names. destruct (bool_decide _); [reflexivity|].
  rewrite length_map. apply length_enumerate.
Qed.

Lemma build_frame_well_formed hdr rows :
  well_formed (build_frame L hdr rows).
Proof.
  unfold well_formed, build_frame. cbn [series nrows].
  apply List.Forall_forall. intros lc Hin. apply in_map_iff in Hin.
  destruct Hin as (jn & <- & _). cbn [snd].
  unfold Csv.column. rewrite !length_map. reflexivity.
Qed.

Lemma length_working_values label c :
  length (working_values L label c) = length c.
Proof.
  unfold working_values. destruct (is_timestamp_column label);
    [apply length_map | reflexivity].
Qed.

Lemma missing_column_well_formed label df :
  Forall (fun lc : string * list value => length (snd lc) = nrows df)
         (missing_column L label df).
Proof.
  unfold missing_column. destruct (sources label df); constructor.
  - cbn [snd]. apply repeat_length.
  - constructor.
Qed.

(** X7.  The table read from a text has one column for each field of the header
    line and, in every column, one cell for each kept line; lines 59-99 keep
    the rows, keep every column in its place, add at most the two timestamp
    columns, and leave every column with one cell for each row. *)
Theorem tables_stay_rectangular (text : string) (df df' : DataFrame) :
  read_csv L text = Ok df ->
  transform L df = Ok df' ->
  well_formed df
  /\ well_formed df'
  /\ nrows df' = nrows df
  /\ (exists hdr rows, Csv.parse text = Ok (hdr, rows)
                       /\ length (series df) = length hdr
                       /\ nrows df = length rows)
  /\ length (series df) <= length (series df') <= length (series df) + 2
  /\ firstn (length (series df)) (columns df')
     = map working_label (columns df).
Proof.
  intros Hread Htr. unfold read_csv in Hread.
  destruct (Csv.parse text) as [[hdr rows]|] eqn:Hparse; [|discriminate].
  injection Hread as <-.
  pose proof (build_frame_well_formed hdr rows) as Hwf.
  apply transform_series in Htr. destruct Htr as [Hn Hs].
  split; [exact Hwf|]. split; [|split; [exact Hn|split; [|split]]].
  - unfold well_formed. rewrite Hs, Hn. rewrite !Forall_app.
    split; [|split; apply missing_column_well_formed].
    apply List.Forall_map. revert Hwf. unfold well_formed.
    apply List.Forall_impl.
    intros [l c]. unfold working_column. cbn [fst snd].
    rewrite length_working_values. auto.
  - exists hdr, rows. split; [reflexivity|]. cbn [build_frame series nrows].
    rewrite length_map, length_enumerate, length_header_names. auto.
  - rewrite Hs, !length_app, length_map. unfold missing_column.
    destruct (sources "start_time" _); destruct (sources "end_time" _);
      simpl; lia.
  - unfold columns. rewrite Hs, map_app, map_map.
    rewrite <- (length_map (fun lc => fst (working_column L lc))
                  (series (build_frame L hdr rows))).
    rewrite firstn_app, firstn_all, Nat.sub_diag. cbn [firstn].
    rewrite app_nil_r, map_map. reflexivity.
Qed.

Lemma nth_map_or_default {A B} (f : A -> B) (l : list A) (d : B) i :
  nth i (map f l) d = d \/ exists x, In x l /\ nth i (map f l) d = f x.
Proof.
  revert i. induction l as [|a l IH]; intros [|i]; simpl; auto.
  - right. exists a. auto.
  - destruct (IH i) as [H | (x & Hx & H)]; [left; exact H|].
    right. exists x. auto.
Qed.

(** X8.  Raw text never reaches a timestamp column: in every record of a table
    that lines 98-99 converted, the [start_time] and [end_time] fields are a
    timestamp, the null marker, or [None]. *)
Theorem timestamp_fields_typed (df df' : DataFrame) (label : string)
    (i : nat) :
  transform L df = Ok df' ->
  is_timestamp_column label = true ->
  row_get label (row_at df' i) = Scalar VNone
  \/ row_get label (row_at df' i) = Scalar VNaT
  \/ exists ns, row_get label (row_at df' i) = Scalar (VTimestamp ns).
Proof.
  intros Htr Hts. rewrite (row_get_working L _ _ _ _ Htr).
  assert (Hlen : length (sources label df) <= 1).
  { destruct (transform_unique L _ _ Htr) as [H1 H2].
    unfold is_timestamp_column in Hts. apply orb_true_iff in Hts.
    destruct Hts as [E | E]; apply String.eqb_eq in E; subst label;
      assumption. }
  assert (Hnone : forall cells,
            Scalar (as_row cells VNone) = Scalar VNone
            \/ Scalar (as_row cells VNone) = Scalar VNaT).
  { intros cells. unfold as_row. destruct (datetimelike cells); auto. }
  unfold working_selection, missing_column, working_values. rewrite Hts.
  destruct (sources label df) as [|[l c] [|lc rest]]; cbn [map snd app].
  - destruct (nth_repeat_or_default (null_datetime L) VNone (nrows df) i)
      as [-> | ->]; [|destruct (Hnone (row_cells df' i)); auto].
    unfold null_datetime. destruct (keeps_none L);
      [destruct (Hnone (row_cells df' i)); auto|].
    right. left. rewrite as_row_nat. reflexivity.
  - destruct (nth_map_or_default (coerce L c) c VNone i)
      as [-> | (x & _ & ->)]; [destruct (Hnone (row_cells df' i)); auto|].
    rewrite as_row_coerce.
    destruct (coerce_shape L c x) as [-> | (ns & ->)]; eauto.
  - simpl in Hlen. lia.
Qed.

End Shape.

(** ** Fields are looked up by name (lines 174-193) *)

Section ByName.

Lemma filter_permutation {A} (f : A -> bool) (l1 l2 : list A) :
  Permutation l1 l2 -> Permutation (List.filter f l1) (List.filter f l2).
Proof.
  induction 1 as [|x l1 l2 _ IH|x y l|l1 l2 l3 _ IH1 _ IH2]; simpl.
  - constructor.
  - destruct (f x); [constructor|]; exact IH.
  - destruct (f x), (f y); try reflexivity. constructor.
  - etransitivity; eassumption.
Qed.

Lemma select_unique label s :
  List.NoDup (map fst s) -> length (select label s) <= 1.
Proof.
  unfold select. rewrite length_map.
  induction s as [|[l c] s IH]; simpl; [lia|].
  intros Hnd. apply NoDup_cons_iff in Hnd. destruct Hnd as [Hl Hnd].
  specialize (IH Hnd).
  destruct (String.eqb_spec l label) as [->|_]; [|exact IH].
  simpl. assert (H : List.filter
                       (fun lc : string * list value =>
                          String.eqb (fst lc) label) s = []).
  { clear -Hl. induction s as [|[l' c'] s IH]; simpl; [reflexivity|].
    simpl in Hl. destruct (String.eqb_spec l' label) as [->|_].
    - exfalso. apply Hl. left. reflexivity.
    - apply IH. intros H. apply Hl. right. exact H. }
  rewrite H. simpl. lia.
Qed.

Lemma select_permutation label s1 s2 :
  Permutation s1 s2 -> List.NoDup (map fst s1) ->
  select label s1 = select label s2.
Proof.
  intros Hp Hnd. pose proof (select_unique label s1 Hnd) as Hlen.
  assert (Hps : Permutation (select label s1) (select label s2)).
  { unfold select. apply Permutation_map, filter_permutation, Hp. }
  destruct (select label s1) as [|c [|c' cs]].
  - apply Permutation_nil in Hps. congruence.
  - apply Permutation_length_1_inv in Hps. congruence.
  - simpl in Hlen. lia.
Qed.

Lemma forallb_permutation {A} (f : A -> bool) (l1 l2 : list A) :
  Permutation l1 l2 -> forallb f l1 = forallb f l2.
Proof.
  induction 1 as [|x l1 l2 _ IH|x y l|l1 l2 l3 _ IH1 _ IH2]; simpl.
  - reflexivity.
  - rewrite IH. reflexivity.
  - destruct (f x), (f y); reflexivity.
  - congruence.
Qed.

Lemma existsb_permutation {A} (f : A -> bool) (l1 l2 : list A) :
  Permutation l1 l2 -> existsb f l1 = existsb f l2.
Proof.
  induction 1 as [|x l1 l2 _ IH|x y l|l1 l2 l3 _ IH1 _ IH2]; simpl.
  - reflexivity.
  - rewrite IH. reflexivity.
  - destruct (f x), (f y); reflexivity.
  - congruence.
Qed.

Lemma same_zone_eq z z' : same_zone z z' = true <-> z = z'.
Proof.
  destruct z as [o|], z' as [o'|]; simpl; try (split; congruence).
  rewrite Z.eqb_eq. split; congruence.
Qed.

(** The timestamps agree with the first of them when they agree with each
    other. *)
Lemma one_zone_pairwise z zs :
  forallb (same_zone z) zs = true
  <-> forall a b, In a (z :: zs) -> In b (z :: zs) -> a = b.
Proof.
  rewrite forallb_forall. split.
  - intros H a b Ha Hb.
    assert (Hz : forall x, In x (z :: zs) -> z = x).
    { intros x [<- | Hx]; [reflexivity|]. apply same_zone_eq, H, Hx. }
    rewrite <- (Hz a Ha), <- (Hz b Hb). reflexivity.
  - intros H x Hx. apply same_zone_eq, H; [left; reflexivity | right; exact Hx].
Qed.

Lemma datetimelike_permutation cells1 cells2 :
  Permutation cells1 cells2 -> datetimelike cells1 = datetimelike cells2.
Proof.
  intros Hp. unfold datetimelike.
  rewrite (forallb_permutation _ _ _ Hp). f_equal.
  assert (Hz : Permutation (zones cells1) (zones cells2))
    by (apply Permutation_flat_map, Hp).
  destruct (zones cells1) as [|z1 zs1] eqn:E1.
  - apply Permutation_nil in Hz. rewrite Hz.
    apply existsb_permutation, Hp.
  - destruct (zones cells2) as [|z2 zs2] eqn:E2.
    + symmetry in Hz. apply Permutation_nil in Hz. discriminate.
    + apply eq_true_iff_eq. rewrite !one_zone_pairwise. split; intros H a b Ha Hb.
      * apply H; eapply Permutation_in; try eassumption;
          symmetry; exact Hz.
      * apply H; eapply Permutation_in; eassumption.
Qed.

Lemma row_cells_permutation df1 df2 i :
  Permutation (series df1) (series df2) ->
  Permutation (row_cells df1 i) (row_cells df2 i).
Proof. intros Hp. unfold row_cells. apply Permutation_map, Hp. Qed.

(** X9.  The order of the columns of the table does not matter to what is
    loaded: two tables with the same columns, no label repeated, give the
    same records. *)
Theorem records_ignore_column_order (df1 df2 : DataFrame) :
  nrows df1 = nrows df2 ->
  Permutation (series df1) (series df2) ->
  List.NoDup (columns df1) ->
  records df1 = records df2.
Proof.
  intros Hn Hp Hnd. apply records_ext; [exact Hn|].
  intros i label _. rewrite !row_get_select.
  rewrite (select_permutation label _ _ Hp Hnd). unfold as_row.
  rewrite (datetimelike_permutation _ _ (row_cells_permutation _ _ i Hp)).
  reflexivity.
Qed.

End ByName.

(** ** Running the script forward (lines 38-197) *)

Section Forward.

Variable L : Library.

Lemma bind_run {A B} (m : M A) (f : A -> M B) w a w1 :
  m w = (Ok a, w1) -> bind m f w = f a w1.
Proof. intros H. unfold bind. rewrite H. reflexivity. Qed.

Lemma bind_fail {A B} (m : M A) (f : A -> M B) w e w1 :
  m w = (Raise e, w1) -> bind m f w = (Raise e, w1).
Proof. intros H. unfold bind. rewrite H. reflexivity. Qed.

Lemma connect_run env w :
  can_connect env = true ->
  connect env w
  = (Ok tt, {| committed := committed w; session := Some (committed w);
               trace := trace w ++ [Connect] |}).
Proof. intros H. unfold connect, bind, log. rewrite H. reflexivity. Qed.

Lemma connect_refused env w :
  can_connect env = false ->
  connect env w
  = (Raise OperationalError,
     {| committed := committed w; session := session w;
        trace := trace w ++ [Connect] |}).
Proof. intros H. unfold connect, bind, log. rewrite H. reflexivity. Qed.

Lemma execute_run env q w d d' :
  session w = Some d ->
  match q with
  | InsertInto _ _ params => adapt params <> None
  | _ => True
  end ->
  server_accepts env q = true ->
  exec d q = Ok d' ->
  execute env q w
  = (Ok tt, {| committed := committed w; session := Some d';
               trace := trace w ++ [Execute q] |}).
Proof.
  intros Hs Had Hacc Hex. unfold execute, bind at 1, log.
  cbn [session]. rewrite Hs.
  assert (H1 : match q with
               | InsertInto _ _ params =>
                   match adapt params with
                   | Some _ => ret tt
                   | None => raise ProgrammingError
                   end
               | _ => ret tt
               end = ret tt).
  { destruct q as [s|s t|s t|s t ps]; try reflexivity.
    destruct (adapt ps); [reflexivity | contradiction]. }
  rewrite H1, Hacc. unfold bind, ret, lift, set_session. rewrite Hex.
  reflexivity.
Qed.

(** The insert loop, run forward on rows the driver adapts and the server
    takes. *)
Lemma insert_loop_run env rows : forall w d tb,
  session w = Some d ->
  tables d !! (SCHEMA_NAME, TABLE_NAME) = Some tb ->
  Forall (fun row => insertable env (insert_params row)) rows ->
  for_each rows
    (fun row => execute env
                  (InsertInto SCHEMA_NAME TABLE_NAME (insert_params row))) w
  = (Ok tt,
     {| committed := committed w;
        session :=
          Some {| schemas := schemas d;
                  tables :=
                    <[ (SCHEMA_NAME, TABLE_NAME) :=
                         {| next_id :=
                              (next_id tb + Z.of_nat (length rows))%Z;
                            table_rows :=
                              table_rows tb
                              ++ numbered (next_id tb)
                                   (map (fun row =>
                                           values_of (insert_params row))
                                        rows) |} ]>
                      (tables d) |};
        trace :=
          trace w
          ++ map (fun row => Execute (insert_statement (insert_params row)))
                 rows |}).
Proof.
  induction rows as [|row rows IH]; intros w d tb Hs Htb Hall.
  - destruct w as [cw sw tw], d as [sd td], tb as [nid rws].
    cbn in *. subst sw. rewrite !app_nil_r, Z.add_0_r.
    rewrite (insert_id td _ _ Htb). reflexivity.
  - apply List.Forall_cons_iff in Hall. destruct Hall as [[Hacc Had] Hall].
    cbn [for_each].
    destruct (adapt (insert_params row)) as [vs|] eqn:Hvs; [|contradiction].
    erewrite bind_run; cycle 1.
    { eapply execute_run; [exact Hs | rewrite Hvs; discriminate
                           | exact Hacc |].
      cbn [exec]. rewrite Htb, Hvs. reflexivity. }
    erewrite IH; [| reflexivity | apply lookup_insert_eq | exact Hall].
    cbn [committed trace schemas tables next_id table_rows map length
         numbered].
    unfold values_of at 2. rewrite Hvs. cbn [default].
    rewrite insert_insert_eq, <- !app_assoc. cbn [app].
    replace (next_id tb + 1 + Z.of_nat (length rows))%Z
      with (next_id tb + Z.of_nat (S (length rows)))%Z by lia.
    reflexivity.
Qed.

(** The Loader, run forward. *)
Lemma load_run env df w :
  can_connect env = true ->
  Forall (fun q => server_accepts env q = true) DDL ->
  Forall (insertable env) (records df) ->
  load env df w
  = (Ok tt,
     {| committed :=
          loaded_database (committed w) (map values_of (records df));
        session := None;
        trace :=
          trace w ++ [Connect] ++ map Execute DDL
          ++ map (fun r => Execute (insert_statement r)) (records df)
          ++ [Commit; CursorClose; ConnClose] |}).
Proof.
  intros Hcon Hddl Hall. unfold DDL in Hddl.
  apply List.Forall_cons_iff in Hddl. destruct Hddl as [H1 Hddl].
  apply List.Forall_cons_iff in Hddl. destruct Hddl as [H2 Hddl].
  apply List.Forall_cons_iff in Hddl. destruct Hddl as [H3 _].
  unfold load.
  erewrite bind_run by (apply connect_run; exact Hcon).
  erewrite bind_run
    by (eapply execute_run; [reflexivity | exact I | exact H1 | reflexivity]).
  erewrite bind_run
    by (eapply execute_run; [reflexivity | exact I | exact H2 | reflexivity]).
  erewrite bind_run; cycle 1.
  { eapply execute_run; [reflexivity | exact I | exact H3 |].
    cbn [exec schemas tables]. rewrite bool_decide_true by set_solver.
    rewrite lookup_delete_eq. reflexivity. }
  erewrite bind_run; cycle 1.
  { eapply insert_loop_run; [reflexivity | apply lookup_insert_eq |].
    unfold records in Hall. rewrite List.Forall_map in Hall. exact Hall. }
  unfold commit, close, bind, log, set_session, loaded_database.
  cbn [committed session trace schemas tables next_id table_rows app
       default fst snd].
  rewrite insert_insert_eq. unfold records, DDL.
  rewrite !map_map, !length_map. cbn [map]. rewrite <- !app_assoc.
  reflexivity.
Qed.

(** Up to the Loader, a run with status 200 whose table is read and
    converted has only made the request. *)
Lemma run_load env db df df' :
  status_code (response env) = 200%Z ->
  read_csv L (text (response env)) = Ok df ->
  transform L df = Ok df' ->
  run L env db
  = load env df' {| committed := db; session := None;
                    trace := [HttpGet; ReadCsv] |}.
Proof.
  intros Hst Hread Htr. unfold run, pipeline, requests_get.
  unfold bind at 1 2. cbn [log ret fst snd committed session trace app].
  rewrite bool_decide_false by (intros H; apply H; exact Hst).
  unfold bind at 1. cbn [log committed session trace app].
  unfold bind at 1. unfold lift at 1. rewrite Hread.
  unfold bind at 1. unfold lift at 1. rewrite Htr. reflexivity.
Qed.

(** The same, when the table is not read or not converted. *)
Lemma run_no_table env db e :
  status_code (response env) = 200%Z ->
  read_csv L (text (response env)) = Raise e
  \/ (exists df, read_csv L (text (response env)) = Ok df
                 /\ transform L df = Raise e) ->
  run L env db
  = (Raise e, {| committed := db; session := None;
                 trace := [HttpGet; ReadCsv] |}).
Proof.
  intros Hst H. unfold run, pipeline, requests_get.
  unfold bind at 1 2. cbn [log ret fst snd committed session trace app].
  rewrite bool_decide_false by (intros H'; apply H'; exact Hst).
  unfold bind at 1. cbn [log committed session trace app].
  unfold bind at 1. unfold lift at 1.
  destruct H as [Hread | (df & Hread & Htr)]; rewrite Hread;
    [reflexivity|].
  unfold bind at 1. unfold lift at 1. rewrite Htr. reflexivity.
Qed.

(** What a Loader that went through had to find. *)
Lemma load_conditions env df w w' :
  load env df w = (Ok tt, w') ->
  can_connect env = true
  /\ Forall (fun q => server_accepts env q = true) DDL
  /\ Forall (insertable env) (records df).
Proof.
  intros H. pose proof (load_ok _ _ _ _ H) as (tb & _ & Hvals & _ & Hall & _).
  unfold load in H.
  apply bind_ok in H. destruct H as ([] & w1 & H1 & H).
  apply connect_ok in H1. destruct H1 as [Hcon ->].
  apply bind_ok in H. destruct H as ([] & w2 & H2 & H).
  apply execute_ok in H2. destruct H2 as (d0 & d1 & _ & Ha1 & _ & ->).
  apply bind_ok in H. destruct H as ([] & w3 & H3 & H).
  apply execute_ok in H3. destruct H3 as (d2 & d3 & _ & Ha2 & _ & ->).
  apply bind_ok in H. destruct H as ([] & w4 & H4 & H).
  apply execute_ok in H4. destruct H4 as (d4 & d5 & _ & Ha3 & _ & ->).
  split; [exact Hcon|]. split; [repeat constructor; assumption|].
  rewrite List.Forall_forall in Hall |- *. intros r Hr. split.
  - apply Hall, Hr.
  - rewrite <- Hvals in Hr. unfold stored_values in Hr.
    apply in_map_iff in Hr. destruct Hr as (row & <- & _).
    rewrite adapt_scalars. discriminate.
Qed.

End Forward.

(** ** Whole runs (lines 38-197) *)

Section Runs.

Variable L : Library.

(** A run that ends well, in full. *)
Lemma run_database env db :
  succeeded (run L env db) = true ->
  exists df df',
    status_code (response env) = 200%Z
    /\ read_csv L (text (response env)) = Ok df
    /\ transform L df = Ok df'
    /\ can_connect env = true
    /\ Forall (fun q => server_accepts env q = true) DDL
    /\ Forall (insertable env) (records df')
    /\ run L env db
       = (Ok tt,
          {| committed :=
               loaded_database db (map values_of (records df'));
             session := None;
             trace := full_trace df' |}).
Proof.
  intros Hok. apply run_ok in Hok.
  destruct Hok as (Hst & df & df' & w' & Hread & Htr & Hload & Hrun).
  pose proof (load_conditions _ _ _ _ Hload) as (Hcon & Hddl & Hall).
  exists df, df'. repeat (split; [assumption|]).
  rewrite (run_load L env db df df' Hst Hread Htr).
  rewrite (load_run env df' _ Hcon Hddl Hall). reflexivity.
Qed.

Lemma loaded_database_again db vss vss' :
  loaded_database (loaded_database db vss') vss = loaded_database db vss.
Proof.
  unfold loaded_database. cbn [schemas tables]. f_equal.
  - apply set_eq. intros s. rewrite !elem_of_union. tauto.
  - apply map_eq. intros k.
    destruct (decide (k = (SCHEMA_NAME, TABLE_NAME))) as [->|Hk].
    + rewrite !lookup_insert_eq. reflexivity.
    + rewrite !lookup_insert_ne, !lookup_delete_ne, lookup_insert_ne,
        lookup_delete_ne by congruence.
      reflexivity.
Qed.

(** X10.  A failure to read or convert the table ends the run before any
    connection is opened: the trace is the request and the read, and the
    database is as it was. *)
Theorem table_failure_precedes_database (env : environment) (db : database)
    (e : exn) :
  status_code (response env) = 200%Z ->
  read_csv L (text (response env)) = Raise e
  \/ (exists df, read_csv L (text (response env)) = Ok df
                 /\ transform L df = Raise e) ->
  run L env db
  = (Raise e, {| committed := db; session := None;
                 trace := [HttpGet; ReadCsv] |}).
Proof. apply run_no_table. Qed.

(** X11.  When the server cannot be reached the run ends at the connection: no
    statement is executed and the database is as it was. *)
Theorem connection_refused (env : environment) (db : database)
    (df df' : DataFrame) :
  status_code (response env) = 200%Z ->
  read_csv L (text (response env)) = Ok df ->
  transform L df = Ok df' ->
  can_connect env = false ->
  run L env db
  = (Raise OperationalError,
     {| committed := db; session := None;
        trace := [HttpGet; ReadCsv; Connect] |}).
Proof.
  intros Hst Hread Htr Hcon. rewrite (run_load L env db df df' Hst Hread Htr).
  unfold load. erewrite bind_fail by (apply connect_refused; exact Hcon).
  reflexivity.
Qed.

(** X12.  A run ends well exactly when the service answers 200, the table is read
    and converted, the server is reached and takes the three DDL statements,
    and every record is adapted by the driver and taken by the server.  What
    the database holds plays no part. *)
Theorem run_succeeds_iff (env : environment) (db : database) :
  succeeded (run L env db) = true
  <-> status_code (response env) = 200%Z
      /\ exists df df',
           read_csv L (text (response env)) = Ok df
           /\ transform L df = Ok df'
           /\ can_connect env = true
           /\ Forall (fun q => server_accepts env q = true) DDL
           /\ Forall (insertable env) (records df').
Proof.
  split.
  - intros Hok. apply run_database in Hok.
    destruct Hok as (df & df' & Hst & Hread & Htr & Hcon & Hddl & Hall & _).
    split; [exact Hst|]. exists df, df'. auto.
  - intros (Hst & df & df' & Hread & Htr & Hcon & Hddl & Hall).
    unfold succeeded. rewrite (run_load L env db df df' Hst Hread Htr).
    rewrite (load_run env df' _ Hcon Hddl Hall). reflexivity.
Qed.

(** X13.  A run that ends well adds the schema and replaces the destination table,
    and touches nothing else: every other schema is still there and every
    other table is what it was. *)
Theorem successful_run_frame (env : environment) (db : database) :
  succeeded (run L env db) = true ->
  schemas (database_after (run L env db)) = {[ SCHEMA_NAME ]} ∪ schemas db
  /\ forall k, k <> (SCHEMA_NAME, TABLE_NAME) ->
       tables (database_after (run L env db)) !! k = tables db !! k.
Proof.
  intros Hok. apply run_database in Hok.
  destruct Hok as (df & df' & _ & _ & _ & _ & _ & _ & Hrun).
  unfold database_after. rewrite Hrun. cbn [snd committed].
  split; [reflexivity|]. intros k Hk. unfold loaded_database.
  cbn [tables]. rewrite lookup_insert_ne, lookup_delete_ne by congruence.
  reflexivity.
Qed.

(** X14.  Running again on the same answer changes nothing: the second run ends
    well too and leaves the database the first one left. *)
Theorem run_idempotent (env : environment) (db : database) :
  succeeded (run L env db) = true ->
  succeeded (run L env (database_after (run L env db))) = true
  /\ database_after (run L env (database_after (run L env db)))
     = database_after (run L env db).
Proof.
  intros Hok. apply run_database in Hok.
  destruct Hok as (df & df' & Hst & Hread & Htr & Hcon & Hddl & Hall & Hrun).
  unfold succeeded, database_after. rewrite Hrun. cbn [snd committed].
  rewrite (run_load L env _ df df' Hst Hread Htr).
  rewrite (load_run env df' _ Hcon Hddl Hall). cbn [fst snd committed].
  split; [reflexivity|]. apply loaded_database_again.
Qed.

(** X15.  An export with a header line and no data line empties the destination:
    the run executes no INSERT and leaves the table without a row. *)
Theorem header_only_empties (env : environment) (db : database)
    (hdr : list string) :
  Csv.parse (text (response env)) = Ok (hdr, []) ->
  succeeded (run L env db) = true ->
  destination (database_after (run L env db))
  = Some {| next_id := 1; table_rows := [] |}
  /\ forall r, ~ In (Execute (insert_statement r)) (events (run L env db)).
Proof.
  intros Hparse Hok. apply run_database in Hok.
  destruct Hok as (df & df' & _ & Hread & Htr & _ & _ & _ & Hrun).
  unfold read_csv in Hread. rewrite Hparse in Hread. injection Hread as <-.
  assert (Hrec : records df' = []).
  { unfold records, iterrows. apply transform_series in Htr.
    destruct Htr as [-> _]. reflexivity. }
  unfold database_after, events, destination. rewrite Hrun.
  cbn [snd committed trace]. unfold full_trace. rewrite Hrec.
  split.
  - unfold loaded_database. cbn [tables map length numbered].
    apply lookup_insert_eq.
  - intros r Hin. cbn in Hin.
    repeat (destruct Hin as [Hin | Hin]; [discriminate Hin|]).
    destruct Hin.
Qed.

End Runs.

(** ** The order of the effects (lines 38-197) *)

Section Effects.

Variable L : Library.

Lemma firstn_prefix_app {A} k (l l' : list A) :
  exists k', firstn k l = firstn k' (l ++ l').
Proof.
  destruct (Nat.le_gt_cases k (length l)) as [Hk | Hk].
  - exists k. rewrite firstn_app. replace (k - length l) with 0 by lia.
    cbn [firstn]. rewrite app_nil_r. reflexivity.
  - exists (length l). rewrite firstn_all2 by lia.
    rewrite firstn_app, Nat.sub_diag, firstn_all. cbn [firstn].
    rewrite app_nil_r. reflexivity.
Qed.

Lemma emits_bind {A B} (m : M A) (f : A -> M B) e1 e2 :
  emits m e1 -> (forall a, emits (f a) e2) -> emits (bind m f) (e1 ++ e2).
Proof.
  intros Hm Hf w. unfold bind. destruct (Hm w) as [Hmok [k Hmk]].
  destruct (m w) as [[a|e] w1]; cbn [fst snd] in *.
  - destruct (Hf a w1) as [Hfok [k2 Hfk]]. specialize (Hmok eq_refl).
    split.
    + intros Hok. rewrite (Hfok Hok), Hmok, app_assoc. reflexivity.
    + exists (length e1 + k2).
      rewrite Hfk, Hmok, firstn_app_2, app_assoc. reflexivity.
  - split; [discriminate|].
    destruct (firstn_prefix_app k e1 e2) as [k' Hk'].
    exists k'. rewrite Hmk, Hk'. reflexivity.
Qed.

Lemma emits_nothing {A} (m : M A) :
  (forall w, trace (snd (m w)) = trace w) -> emits m [].
Proof.
  intros H w. rewrite H, app_nil_r. split; [reflexivity|].
  exists 0. rewrite app_nil_r. reflexivity.
Qed.

Lemma emits_log ev : emits (log ev) [ev].
Proof.
  intros w. split; [reflexivity|]. exists 1. reflexivity.
Qed.

Lemma emits_connect env : emits (connect env) [Connect].
Proof.
  unfold connect. apply (emits_bind _ _ [Connect] []); [apply emits_log|].
  intros _. apply emits_nothing. intros w.
  destruct (can_connect env); reflexivity.
Qed.

Lemma emits_execute env q : emits (execute env q) [Execute q].
Proof.
  unfold execute. apply (emits_bind _ _ [Execute q] []); [apply emits_log|].
  intros _. apply emits_nothing. intros w.
  destruct (session w) as [d|]; [|reflexivity].
  unfold bind, ret, raise, lift, set_session.
  destruct q as [s|s t|s t|s t ps];
    try (destruct (adapt ps)); cbn [fst snd]; try reflexivity;
    destruct (server_accepts env _); cbn [fst snd]; try reflexivity;
    destruct (exec d _); reflexivity.
Qed.

Lemma emits_for_each {A} (xs : list A) body (ev : A -> event) :
  (forall x, emits (body x) [ev x]) ->
  emits (for_each xs body) (map ev xs).
Proof.
  intros Hb. induction xs as [|x xs IH]; cbn [for_each map].
  - apply emits_nothing. reflexivity.
  - apply (emits_bind _ _ [ev x]); [apply Hb | intros _; exact IH].
Qed.

Lemma emits_load env df :
  emits (load env df)
    ([Connect] ++ map Execute DDL
     ++ map (fun r => Execute (insert_statement r)) (records df)
     ++ [Commit; CursorClose; ConnClose]).
Proof.
  unfold load, DDL, records. rewrite map_map. cbn [map app].
  apply (emits_bind _ _ [Connect]); [apply emits_connect|]. intros _.
  apply (emits_bind _ _ [Execute _]); [apply emits_execute|]. intros _.
  apply (emits_bind _ _ [Execute _]); [apply emits_execute|]. intros _.
  apply (emits_bind _ _ [Execute _]); [apply emits_execute|]. intros _.
  apply emits_bind.
  { apply (emits_for_each _ _
             (fun row => Execute (insert_statement (insert_params row)))).
    intros row. apply emits_execute. }
  intros _.
  apply (emits_bind _ _ [Commit] [CursorClose; ConnClose]).
  { unfold commit. apply (emits_bind _ _ [Commit] []); [apply emits_log|].
    intros _. apply emits_nothing. reflexivity. }
  intros _. apply (emits_bind _ _ [CursorClose] [ConnClose]);
    [apply emits_log|].
  intros _. unfold close.
  apply (emits_bind _ _ [ConnClose] []); [apply emits_log|].
  intros _. apply emits_nothing. reflexivity.
Qed.

(** X16.  Whatever happens to a run whose table was read and converted, what it
    has done is a beginning of the full sequence: the connection before any
    statement, the three DDL statements in their order before any INSERT,
    the INSERTs in the order of the records, the commit after the last of
    them.  A run that ends well has done all of it. *)
Theorem run_trace_prefix (env : environment) (db : database)
    (df df' : DataFrame) :
  status_code (response env) = 200%Z ->
  read_csv L (text (response env)) = Ok df ->
  transform L df = Ok df' ->
  (exists k, events (run L env db) = firstn k (full_trace df'))
  /\ (succeeded (run L env db) = true ->
      events (run L env db) = full_trace df').
Proof.
  intros Hst Hread Htr. unfold events, succeeded.
  rewrite (run_load L env db df df' Hst Hread Htr).
  destruct (emits_load env df'
              {| committed := db; session := None;
                 trace := [HttpGet; ReadCsv] |}) as [Hok [k Hk]].
  cbn [trace] in Hok, Hk. split.
  - exists (2 + k). rewrite Hk. reflexivity.
  - intros H. rewrite (Hok H). reflexivity.
Qed.

End Effects.

(** ** When the table cannot be read (lines 48-52) *)

Section Unreadable.

Variable L : Library.

Lemma is_margin_cases c :
  is_margin c = true ->
  c = Csv.LF \/ c = Csv.CR \/ c = " "%char \/ c = Csv.TAB.
Proof.
  unfold is_margin, Csv.is_blank. rewrite !orb_true_iff, !Ascii.eqb_eq.
  tauto.
Qed.

Lemma idle_step t c : is_margin c = true -> idle t -> idle (Csv.step t c).
Proof.
  intros Hc (Hl & Hf & Hs). destruct t as [s wd fs ls p b].
  cbn in Hl, Hf, Hs. subst ls fs.
  apply is_margin_cases in Hc.
  unfold idle, Csv.step, Csv.at_buffer_start. cbn [Csv.pos].
  destruct (N.eqb (N.modulo p Csv.chunksize) 0);
    destruct Hc as [-> | [-> | [-> | ->]]]; destruct Hs as [-> | [-> | ->]];
    cbn; auto 10.
Qed.

Lemma idle_feed text : forall t,
  all_chars is_margin text = true -> idle t -> idle (Csv.feed t text).
Proof.
  induction text as [|c text IH]; intros t Hall Ht; [exact Ht|].
  cbn [all_chars] in Hall. apply andb_true_iff in Hall.
  destruct Hall as [Hc Hall]. cbn [Csv.feed].
  apply IH; [exact Hall | apply idle_step; assumption].
Qed.

Lemma blank_text_unreadable text :
  all_chars is_margin text = true ->
  read_csv L text = Raise EmptyDataError.
Proof.
  intros Hall.
  assert (Hidle : idle (Csv.feed Csv.init text)).
  { apply idle_feed; [exact Hall|]. unfold idle, Csv.init. cbn. auto. }
  destruct Hidle as (Hl & _ & Hs).
  unfold read_csv, Csv.parse, Csv.tokenize, Csv.handle_eof.
  destruct Hs as [-> | [-> | ->]]; rewrite Hl; reflexivity.
Qed.

(** X17.  An answer of status 200 whose body is empty, or holds line ends, spaces
    and TABs only, has no columns to parse: the run ends with that error
    before any connection is opened. *)
Theorem blank_export_fails (env : environment) (db : database) :
  status_code (response env) = 200%Z ->
  all_chars is_margin (text (response env)) = true ->
  run L env db
  = (Raise EmptyDataError,
     {| committed := db; session := None; trace := [HttpGet; ReadCsv] |}).
Proof.
  intros Hst Hall. apply run_no_table; [exact Hst|]. left.
  apply blank_text_unreadable, Hall.
Qed.

End Unreadable.

(** ** Repeated labels (lines 95-99 and 174-193) *)

Section Repeated.

Variable L : Library.

Lemma adapt_subseries vs params :
  In (SubSeries vs) params -> adapt params = None.
Proof.
  induction params as [|[v|vs'] ps IH]; simpl; [tauto| |reflexivity].
  intros [H | H]; [discriminate|]. rewrite (IH H). reflexivity.
Qed.

Lemma length_working_selection label df :
  length (sources label df) <= length (working_selection L label df).
Proof.
  unfold working_selection. rewrite length_app, !length_map. lia.
Qed.

(** X19.  Two columns that end up under one destination name end the run without
    a commit: lines 98-99 raise when the name is [start_time] or [end_time],
    and otherwise the first INSERT cannot be adapted, so that only a table
    without rows gets through. *)
Theorem repeated_label_aborts (env : environment) (db : database)
    (df : DataFrame) (label : string) :
  status_code (response env) = 200%Z ->
  read_csv L (text (response env)) = Ok df ->
  In label INSERT_COLUMNS ->
  2 <= length (sources label df) ->
  is_timestamp_column label = true \/ 1 <= nrows df ->
  succeeded (run L env db) = false
  /\ database_after (run L env db) = db.
Proof.
  intros Hst Hread Hlab Hdup Hrows.
  assert (Hfail : succeeded (run L env db) = false).
  { destruct (succeeded (run L env db)) eqn:Hok; [|reflexivity].
    exfalso. apply run_database in Hok.
    destruct Hok as (df0 & df' & _ & Hread0 & Htr & _ & _ & Hall & _).
    rewrite Hread in Hread0. injection Hread0 as <-.
    destruct Hrows as [Hts | Hrows].
    - destruct (transform_unique L _ _ Htr) as [H1 H2].
      unfold is_timestamp_column in Hts. apply orb_true_iff in Hts.
      destruct Hts as [E | E]; apply String.eqb_eq in E; subst label; lia.
    - assert (Hn : nrows df' = nrows df)
        by (apply transform_series in Htr; apply Htr).
      assert (Hin : In (insert_params (row_at df' 0)) (records df')).
      { unfold records, iterrows. rewrite Hn.
        destruct (nrows df) as [|n]; [lia|]. left. reflexivity. }
      rewrite List.Forall_forall in Hall. destruct (Hall _ Hin) as [_ Had].
      apply Had. pose proof (length_working_selection label df) as Hlen.
      pose proof (row_get_working L label df df' 0 Htr) as Hget.
      destruct (working_selection L label df) as [|c [|c' cs]];
        [simpl in Hlen; lia | simpl in Hlen; lia |].
      cbn [map] in Hget.
      apply (adapt_subseries
               (map (fun c0 => as_row (row_cells df' 0) (nth 0 c0 VNone))
                    (c :: c' :: cs))).
      cbn [map]. rewrite <- Hget. unfold insert_params.
      apply (in_map (fun d => row_get d (row_at df' 0))). exact Hlab. }
  split; [exact Hfail | apply failed_run, Hfail].
Qed.

End Repeated.

(** * The further properties on concrete inputs *)

Section MoreInstances.

Lemma canonical_label_alphabet_witness :
  In "n"%char (chars (canonicalize "Name of Organisation?"))
  /\ lower_char "n" = "n"%char.
Proof.
  assert (Hin : In "n"%char (chars (canonicalize "Name of Organisation?")))
    by (vm_compute; auto).
  split; [exact Hin|].
  apply (canonical_label_alphabet "Name of Organisation?" "n" Hin).
Defined.

Lemma plain_label_idempotent_witness :
  canonicalize (canonicalize "Name of Organisation?")
  = canonicalize "Name of Organisation?".
Proof.
  apply (plain_label_idempotent "Name of Organisation?").
  vm_compute. reflexivity.
Defined.

Lemma mapping_keys_canonical_witness :
  canonicalize "name_of_organisation" = "name_of_organisation"
  /\ working_label "name_of_organisation" = "name_of_organization".
Proof.
  apply (mapping_keys_canonical "name_of_organisation"
           "name_of_organization").
  vm_compute. reflexivity.
Defined.

Lemma insert_columns_mapped_witness :
  exists k, COLUMN_MAPPING !! k = Some "consent"
            /\ forall k', COLUMN_MAPPING !! k' = Some "consent" -> k' = k.
Proof.
  apply (insert_columns_mapped "consent"). simpl. auto 20.
Defined.

Lemma tables_stay_rectangular_witness :
  well_formed ragged_frame /\ well_formed ragged_working.
Proof.
  destruct (tables_stay_rectangular sample_library ragged_text
              ragged_frame ragged_working) as (H1 & H2 & _);
    [vm_compute; reflexivity | vm_compute; reflexivity |].
  split; assumption.
Defined.

Lemma timestamp_fields_typed_witness :
  row_get "end_time" (row_at scenario1_working 0) = Scalar VNone
  \/ row_get "end_time" (row_at scenario1_working 0) = Scalar VNaT
  \/ exists ns,
       row_get "end_time" (row_at scenario1_working 0)
       = Scalar (VTimestamp ns).
Proof.
  apply (timestamp_fields_typed sample_library scenario1_frame
           scenario1_working "end_time" 0).
  - vm_compute. reflexivity.
  - reflexivity.
Defined.

Lemma records_ignore_column_order_witness :
  records scenario1_working = records scenario1_swapped.
Proof.
  apply (records_ignore_column_order scenario1_working scenario1_swapped).
  - reflexivity.
  - apply perm_swap.
  - repeat constructor; simpl; intuition discriminate.
Defined.

Lemma table_failure_precedes_database_witness :
  run sample_library (friendly 200 repeated_start_text) empty_database
  = (Raise ValueError,
     {| committed := empty_database; session := None;
        trace := [HttpGet; ReadCsv] |}).
Proof.
  apply (table_failure_precedes_database sample_library
           (friendly 200 repeated_start_text) empty_database ValueError).
  - reflexivity.
  - right. exists repeated_start_frame.
    split; vm_compute; reflexivity.
Defined.

Lemma connection_refused_witness :
  run sample_library (unreachable scenario1_text) empty_database
  = (Raise OperationalError,
     {| committed := empty_database; session := None;
        trace := [HttpGet; ReadCsv; Connect] |}).
Proof.
  apply (connection_refused sample_library (unreachable scenario1_text)
           empty_database scenario1_frame scenario1_working).
  - reflexivity.
  - vm_compute. reflexivity.
  - vm_compute. reflexivity.
  - reflexivity.
Defined.

Lemma successful_run_frame_witness :
  schemas (database_after
             (run sample_library (friendly 200 second_text)
                after_first_run))
  = {[ SCHEMA_NAME ]} ∪ schemas after_first_run.
Proof.
  apply (successful_run_frame sample_library (friendly 200 second_text)
           after_first_run).
  vm_compute. reflexivity.
Defined.

Lemma run_idempotent_witness :
  database_after
    (run sample_library (friendly 200 scenario1_text) after_first_run)
  = after_first_run.
Proof.
  apply (run_idempotent sample_library (friendly 200 scenario1_text)
           empty_database).
  vm_compute. reflexivity.
Defined.

Lemma header_only_empties_witness :
  destination
    (database_after
       (run sample_library (friendly 200 header_only_text) after_first_run))
  = Some {| next_id := 1; table_rows := [] |}.
Proof.
  apply (header_only_empties sample_library (friendly 200 header_only_text)
           after_first_run ["Start"; "End"; "Gender"]).
  - vm_compute. reflexivity.
  - vm_compute. reflexivity.
Defined.

Lemma run_trace_prefix_witness :
  exists k,
    events (run sample_library (refusing scenario1_text) empty_database)
    = firstn k (full_trace scenario1_working).
Proof.
  apply (run_trace_prefix sample_library (refusing scenario1_text)
           empty_database scenario1_frame scenario1_working).
  - reflexivity.
  - vm_compute. reflexivity.
  - vm_compute. reflexivity.
Defined.

Lemma blank_export_fails_witness :
  run sample_library (friendly 200 blank_text) after_first_run
  = (Raise EmptyDataError,
     {| committed := after_first_run; session := None;
        trace := [HttpGet; ReadCsv] |}).
Proof.
  apply (blank_export_fails sample_library (friendly 200 blank_text)
           after_first_run).
  - reflexivity.
  - vm_compute. reflexivity.
Defined.

Lemma repeated_label_aborts_witness :
  succeeded
    (run sample_library (friendly 200 repeated_gender_text) after_first_run)
  = false
  /\ database_after
       (run sample_library (friendly 200 repeated_gender_text)
          after_first_run)
     = after_first_run.
Proof.
  apply (repeated_label_aborts sample_library
           (friendly 200 repeated_gender_text) after_first_run
           repeated_gender_frame "gender").
  - reflexivity.
  - vm_compute. reflexivity.
  - simpl. auto 20.
  - vm_compute. lia.
  - right. simpl. lia.
Defined.

End MoreInstances.
